(** * api_yamdb: the views of [api/views.py] and the validator of
    [reviews/validators.py], embedded and verified.

    Python [str] values are sequences of Unicode code points; the relational
    store is a record of tables (lists of rows); a view is a function in a
    state-and-exception monad over that store, so that what a view has written
    before an exception escapes stays written. *)

From Stdlib Require Import List String Ascii Bool NArith ZArith QArith Qabs Lia.
From Stdlib Require Import Sorted Permutation.
Import ListNotations.

Close Scope Q_scope.
Open Scope N_scope.
Open Scope list_scope.

(* ------------------------------------------------------------------------- *)
(** ** Python strings *)

(** A Python [str]: a sequence of code points. *)
Definition str := list N.

(** Source literals are written as UTF-8 text and decoded to code points. *)
Fixpoint utf8_decode (bs : list N) : str :=
  match bs with
  | [] => []
  | b :: rest =>
      if b <? 128 then b :: utf8_decode rest
      else if b <? 224 then
        match rest with
        | b1 :: rest1 => ((b - 192) * 64 + (b1 - 128)) :: utf8_decode rest1
        | [] => []
        end
      else if b <? 240 then
        match rest with
        | b1 :: b2 :: rest2 =>
            ((b - 224) * 4096 + (b1 - 128) * 64 + (b2 - 128))
              :: utf8_decode rest2
        | _ => []
        end
      else
        match rest with
        | b1 :: b2 :: b3 :: rest3 =>
            ((b - 240) * 262144 + (b1 - 128) * 4096 + (b2 - 128) * 64
             + (b3 - 128)) :: utf8_decode rest3
        | _ => []
        end
  end.

Definition py (s : string) : str :=
  utf8_decode (List.map N_of_ascii (list_ascii_of_string s)).

Fixpoint str_eqb (a b : str) : bool :=
  match a, b with
  | [], [] => true
  | x :: a', y :: b' => (x =? y) && str_eqb a' b'
  | _, _ => false
  end.

Definition mem (x : str) (l : list str) : bool := existsb (str_eqb x) l.

(* ------------------------------------------------------------------------- *)
(** ** Exceptions *)

(** The detail of one error of a field: its text is [message % params] when
    parameters were given, and [message] itself otherwise. *)
Record ErrorDetail : Type :=
  { detail_message : str; detail_params : list (str * str) }.

Inductive Exc : Type :=
| ValidationError (message : str) (params : list (str * str))
                                             (* django.core.exceptions *)
| FieldErrors (errors : list (str * ErrorDetail))
                                             (* rest_framework, rendered as 400 *)
| Http404
| DoesNotExist
| MultipleObjectsReturned
| IntegrityError
| SMTPException
| ValueError
| TypeError
| KeyError
| AttributeError
| OverflowError.

(* ------------------------------------------------------------------------- *)
(** ** [message % params] with a dictionary on the right

    Whether the formatting raises, and what: the walk over the format follows
    the interpreter's (mapping key, flags, width, precision, length modifier,
    conversion).  The text of a conversion that goes through is not computed;
    the arguments here are the dictionary itself or one of its string
    values. *)

Inductive fmt_state : Type :=
| Literal
| Percent                                 (* after the percent sign *)
| Key (depth : nat) (key_rev : str)       (* inside the parentheses of a key *)
| Flags
| Width (w : Z)
| Dot                                     (* after the point *)
| Precision (p : Z)
| Length.                                 (* after h, l or L *)

Inductive fmt_arg : Type :=
| WholeDict
| Value (v : str).

Definition PY_SSIZE_T_MAX : Z := 9223372036854775807.
Definition INT_MAX : Z := 2147483647.

Definition is_digit (c : N) : bool := (48 <=? c) && (c <=? 57).

Definition is_flag (c : N) : bool :=
  (c =? 45) || (c =? 43) || (c =? 32) || (c =? 35) || (c =? 48).

Definition is_length_modifier (c : N) : bool :=
  (c =? 104) || (c =? 108) || (c =? 76).

(** d i u o x X e E f F g G *)
Definition is_number_conversion (c : N) : bool :=
  existsb (N.eqb c) [100; 105; 117; 111; 120; 88; 101; 69; 102; 70; 103; 71].

(** s r a *)
Definition is_text_conversion (c : N) : bool :=
  (c =? 115) || (c =? 114) || (c =? 97).

Fixpoint params_get (params : list (str * str)) (key : str) : option str :=
  match params with
  | [] => None
  | (k, v) :: params' => if str_eqb k key then Some v else params_get params' key
  end.

(** The conversion character: [%] takes no argument; any other takes the
    next one, of which there is one only, and converts it. *)
Definition convert (c : N) (arg : fmt_arg) (fresh : bool)
  : Exc + (fmt_state * fmt_arg * bool) :=
  if c =? 37 then inr (Literal, arg, fresh)
  else if negb fresh then inl TypeError
  else if is_text_conversion c then inr (Literal, arg, false)
  else if is_number_conversion c then inl TypeError
  else if c =? 99 then
    match arg with
    | Value [_] => inr (Literal, arg, false)
    | _ => inl TypeError
    end
  else inl ValueError.

Definition after_precision (c : N) (arg : fmt_arg) (fresh : bool)
  : Exc + (fmt_state * fmt_arg * bool) :=
  if is_length_modifier c then inr (Length, arg, fresh)
  else convert c arg fresh.

Definition after_width (c : N) (arg : fmt_arg) (fresh : bool)
  : Exc + (fmt_state * fmt_arg * bool) :=
  if c =? 46 then inr (Dot, arg, fresh) else after_precision c arg fresh.

(** A star asks for an integer argument, and there is none. *)
Definition after_flags (c : N) (arg : fmt_arg) (fresh : bool)
  : Exc + (fmt_state * fmt_arg * bool) :=
  if c =? 42 then inl TypeError
  else if is_digit c then inr (Width (Z.of_N c - 48)%Z, arg, fresh)
  else after_width c arg fresh.

Definition fmt_step (params : list (str * str)) (st : fmt_state)
  (arg : fmt_arg) (fresh : bool) (c : N)
  : Exc + (fmt_state * fmt_arg * bool) :=
  match st with
  | Literal => if c =? 37 then inr (Percent, arg, fresh)
               else inr (Literal, arg, fresh)
  | Percent =>
      if c =? 40 then inr (Key 1%nat [], arg, fresh)
      else if is_flag c then inr (Flags, arg, fresh)
      else after_flags c arg fresh
  | Key depth key_rev =>
      if c =? 41 then
        match depth with
        | 0%nat | 1%nat =>
            match params_get params (rev key_rev) with
            | Some v => inr (Flags, Value v, true)
            | None => inl KeyError
            end
        | S depth' => inr (Key depth' (c :: key_rev), arg, fresh)
        end
      else if c =? 40 then inr (Key (S depth) (c :: key_rev), arg, fresh)
      else inr (Key depth (c :: key_rev), arg, fresh)
  | Flags => if is_flag c then inr (Flags, arg, fresh)
             else after_flags c arg fresh
  | Width w =>
      if is_digit c then
        if (w >? (PY_SSIZE_T_MAX - (Z.of_N c - 48)) / 10)%Z then inl ValueError
        else inr (Width (w * 10 + (Z.of_N c - 48))%Z, arg, fresh)
      else after_width c arg fresh
  | Dot =>
      if c =? 42 then inl TypeError
      else if is_digit c then inr (Precision (Z.of_N c - 48)%Z, arg, fresh)
      else after_precision c arg fresh
  | Precision p =>
      if is_digit c then
        if (p >? (INT_MAX - (Z.of_N c - 48)) / 10)%Z then inl ValueError
        else inr (Precision (p * 10 + (Z.of_N c - 48))%Z, arg, fresh)
      else after_precision c arg fresh
  | Length => convert c arg fresh
  end.

Fixpoint fmt_run (params : list (str * str)) (st : fmt_state) (arg : fmt_arg)
  (fresh : bool) (format : str) : option Exc :=
  match format with
  | [] => match st with
          | Literal => None
          | _ => Some ValueError      (* incomplete format, or format key *)
          end
  | c :: format' =>
      match fmt_step params st arg fresh c with
      | inl e => Some e
      | inr (st', arg', fresh') => fmt_run params st' arg' fresh' format'
      end
  end.

(** The exception [message % params] raises, if it raises one. *)
Definition percent_raises (message : str) (params : list (str * str))
  : option Exc :=
  fmt_run params Literal WholeDict true message.

(* ------------------------------------------------------------------------- *)
(** ** [re.search] for the pattern of the validator

    The pattern language is the fragment the source uses: the anchors [^] and
    [\Z], and a character set under [+].  Matching is Python's: leftmost
    start, greedy repetition with backtracking. *)

Inductive set_item : Type :=
| Word            (* \w *)
| Lit (c : N).

Inductive node : Type :=
| Bol                               (* ^ *)
| EndZ                              (* \Z *)
| PlusSet (set : list set_item).    (* [...]+ *)

Section Regex.

  (** [str.isalnum] of one code point outside ASCII, as the Unicode character
      database has it. *)
Variable unicode_alnum : N -> bool.

Definition ascii_alnum (c : N) : bool :=
    ((48 <=? c) && (c <=? 57)) || ((65 <=? c) && (c <=? 90))
    || ((97 <=? c) && (c <=? 122)).

  (** [\w] on a [str] pattern: alphanumeric or the underscore. *)
Definition is_word (c : N) : bool :=
    (c =? 95) || (if c <? 128 then ascii_alnum c else unicode_alnum c).

Definition in_set (set : list set_item) (c : N) : bool :=
    existsb (fun it => match it with Word => is_word c | Lit d => c =? d end)
            set.

  (** Greedy [set*] followed by the continuation [k], giving characters back
      one at a time when [k] fails. *)
Fixpoint star (set : list set_item) (k : str -> bool) (s : str) : bool :=
    match s with
    | c :: s' => if in_set set c then star set k s' || k s else k s
    | [] => k s
    end.

  (** Match the nodes [p] at the current position; [at_start] tells whether
      that position is the beginning of the subject. *)
Fixpoint match_here (p : list node) (at_start : bool) (s : str) : bool :=
    match p with
    | [] => true
    | Bol :: p' => at_start && match_here p' at_start s
    | EndZ :: p' =>
        match s with [] => match_here p' at_start s | _ :: _ => false end
    | PlusSet set :: p' =>
        match s with
        | c :: s' => in_set set c && star set (match_here p' false) s'
        | [] => false
        end
    end.

Fixpoint search_from (p : list node) (at_start : bool) (s : str) : bool :=
    match_here p at_start s
    || match s with [] => false | _ :: s' => search_from p false s' end.

  (** [re.search(p, s) is not None]. *)
Definition re_search (p : list node) (s : str) : bool := search_from p true s.

  (** r'^[\w.@+-]+\Z' *)
Definition username_set : list set_item :=
    [Word; Lit 46; Lit 64; Lit 43; Lit 45].

Definition username_pattern : list node := [Bol; PlusSet username_set; EndZ].

  (** *** reviews/validators.py *)

Definition validate_username (value : str) : Exc + unit :=
    if str_eqb value (py "me") then
      inl (ValidationError (py "Имя пользователя не может быть <me>.")
                           [(py "value", value)])
    else if negb (re_search username_pattern value) then
      inl (ValidationError
             (py "Недопустимые символы <" ++ value ++ py "> в username.")
             [(py "value", value)])
    else inr tt.

End Regex.

(* ------------------------------------------------------------------------- *)
(** ** The store: reviews/models.py as tables of rows *)

Open Scope Z_scope.

(** Modelled from the spec: the role choices of the User model, which is not
    among the sources (spec, data model: role in anonymous, user, moderator,
    admin; the default is user). *)
Inductive Role : Type := Anonymous | RegularUser | Moderator | Admin.

Definition Role_name (r : Role) : str :=
  match r with
  | Anonymous => py "anonymous"
  | RegularUser => py "user"
  | Moderator => py "moderator"
  | Admin => py "admin"
  end.

Definition Role_of_name (s : str) : option Role :=
  if str_eqb s (py "anonymous") then Some Anonymous
  else if str_eqb s (py "user") then Some RegularUser
  else if str_eqb s (py "moderator") then Some Moderator
  else if str_eqb s (py "admin") then Some Admin
  else None.

(** Modelled from the spec: the attributes of a User row (models.py is not
    among the sources): unique username, unique email, role, bio. *)
Module User.
Record t : Type := mk
    { pk : Z; username : str; email : str; role : Role; bio : str }.
End User.

(** Category, Genre, Title and Review rows, with the columns the views name:
    [slug], [name], [category], [genre], [reviews__score]. *)
Module Category.
Record t : Type := mk { pk : Z; name : str; slug : str }.
End Category.

Module Genre.
Record t : Type := mk { pk : Z; name : str; slug : str }.
End Genre.

Module Title.
Record t : Type := mk
    { pk : Z; name : str; year : Z; description : str;
      category : option Z;         (* foreign key to Category *)
      genre : list Z }.            (* many-to-many to Genre *)
End Title.

Module Review.
Record t : Type := mk
    { pk : Z; title_id : Z; author_id : Z; text : str; score : Z }.
End Review.

(** django.core.mail.EmailMessage *)
Record EmailMessage : Type :=
  { subject : str; body : str; to : list str }.

Record World : Type :=
  { users : list User.t;
    categories : list Category.t;
    genres : list Genre.t;
    titles : list Title.t;
    reviews : list Review.t;
    outbox : list EmailMessage }.   (* messages the mail transport accepted *)

Definition set_users (us : list User.t) (w : World) : World :=
  {| users := us; categories := categories w; genres := genres w;
     titles := titles w; reviews := reviews w; outbox := outbox w |}.

Definition set_titles (ts : list Title.t) (w : World) : World :=
  {| users := users w; categories := categories w; genres := genres w;
     titles := ts; reviews := reviews w; outbox := outbox w |}.

Definition set_outbox (ms : list EmailMessage) (w : World) : World :=
  {| users := users w; categories := categories w; genres := genres w;
     titles := titles w; reviews := reviews w; outbox := ms |}.

(** What a request reads from its surroundings: the clock, and whether the
    mail transport takes a message. *)
Record Env : Type :=
  { now : Z; smtp_accepts : EmailMessage -> bool }.

(* ------------------------------------------------------------------------- *)
(** ** Views as stateful computations that may raise *)

Definition M (A : Type) : Type := World -> (Exc + A) * World.

Definition ret {A} (a : A) : M A := fun w => (inr a, w).

Definition raise {A} (e : Exc) : M A := fun w => (inl e, w).

Definition bind {A B} (m : M A) (k : A -> M B) : M B :=
  fun w =>
    match m w with
    | (inr a, w') => k a w'
    | (inl e, w') => (inl e, w')
    end.

Definition lift {A} (r : Exc + A) : M A := fun w => (r, w).

Notation "x <- m ;; k" := (bind m (fun x => k))
  (at level 61, m at next level, right associativity).

Notation "' pat <- m ;; k" := (bind m (fun x => let 'pat := x in k))
  (at level 61, pat pattern, m at next level, right associativity).

(* ------------------------------------------------------------------------- *)
(** ** The ORM calls the views make *)

(** [Model.objects.get(...)]: the one row that matches. *)
Definition objects_get {R} (matches : R -> bool) (table : list R) : Exc + R :=
  match filter matches table with
  | [] => inl DoesNotExist
  | [r] => inr r
  | _ :: _ :: _ => inl MultipleObjectsReturned
  end.

(** django.shortcuts.get_object_or_404: only DoesNotExist becomes Http404. *)
Definition get_object_or_404 {R} (matches : R -> bool) (table : list R)
  : Exc + R :=
  match objects_get matches table with
  | inl DoesNotExist => inl Http404
  | r => r
  end.

Definition next_pk (pks : list Z) : Z := 1 + fold_right Z.max 0 pks.

Definition same_identity (username email : str) (u : User.t) : bool :=
  str_eqb (User.username u) username && str_eqb (User.email u) email.

(** [User.objects.create(username=..., email=...)]; the unique constraints on
    username and on email are the store's. *)
Definition User_create (username email : str) : M User.t :=
  fun w =>
    if existsb (fun u => str_eqb (User.username u) username
                         || str_eqb (User.email u) email) (users w)
    then (inl IntegrityError, w)
    else
      let u := User.mk (next_pk (List.map User.pk (users w)))
                       username email RegularUser [] in
      (inr u, set_users (users w ++ [u]) w).

(** [User.objects.get_or_create(username=..., email=...)] *)
Definition User_get_or_create (username email : str) : M (User.t * bool) :=
  fun w =>
    match objects_get (same_identity username email) (users w) with
    | inr u => (inr (u, false), w)
    | inl DoesNotExist =>
        match User_create username email w with
        | (inr u, w') => (inr (u, true), w')
        | (inl IntegrityError, w') =>
            match objects_get (same_identity username email) (users w') with
            | inr u => (inr (u, false), w')
            | inl DoesNotExist => (inl IntegrityError, w')
            | inl e => (inl e, w')
            end
        | (inl e, w') => (inl e, w')
        end
    | inl e => (inl e, w)
    end.

(** [instance.save()] of an existing User row: UPDATE ... WHERE pk. *)
Definition User_save (u : User.t) : M unit :=
  fun w =>
    if existsb (fun v => negb (User.pk v =? User.pk u)
                         && (str_eqb (User.username v) (User.username u)
                             || str_eqb (User.email v) (User.email u)))
               (users w)
    then (inl IntegrityError, w)
    else
      (inr tt,
       set_users
         (List.map (fun v => if User.pk v =? User.pk u then u else v) (users w))
         w).

(* ------------------------------------------------------------------------- *)
(** ** Requests and responses *)

(** [request.data] as a QueryDict: every key holds a list of values. *)
Definition QueryDict := list (str * list str).

Fixpoint getlist (d : QueryDict) (key : str) : list str :=
  match d with
  | [] => []
  | (k, vs) :: d' => if str_eqb k key then vs else getlist d' key
  end.

(** [QueryDict.get]: the last value of the key, [None] when there is none. *)
Definition get (d : QueryDict) (key : str) : option str :=
  match getlist d key with
  | [] => None
  | v :: vs => Some (last vs v)
  end.

Record Response : Type := { data : list (str * str); status : Z }.

Definition HTTP_200_OK : Z := 200.
Definition HTTP_400_BAD_REQUEST : Z := 400.
Definition HTTP_404_NOT_FOUND : Z := 404.

Fixpoint has_key (body : list (str * str)) (key : str) : bool :=
  match body with
  | [] => false
  | (k, _) :: body' => str_eqb k key || has_key body' key
  end.

(* ------------------------------------------------------------------------- *)
(** ** api/serializers.py *)

Definition plain (message : str) : ErrorDetail :=
  {| detail_message := message; detail_params := [] |}.

Definition field_required : ErrorDetail := plain (py "This field is required.").

(** rest_framework's [get_error_detail] on a ValidationError of Django:
    [(error.message % error.params) if error.params else error.message];
    what the formatting raises is not caught. *)
Definition get_error_detail (message : str) (params : list (str * str))
  : Exc + ErrorDetail :=
  match params with
  | [] => inr (plain message)
  | _ :: _ =>
      match percent_raises message params with
      | Some e => inl e
      | None => inr {| detail_message := message; detail_params := params |}
      end
  end.

(** The errors one declared field contributes to [serializer.errors]. *)
Definition field_errors (name : str) (value : option str)
  (validator : str -> Exc + unit) : Exc + list (str * ErrorDetail) :=
  match value with
  | None => inr [(name, field_required)]
  | Some v =>
      match validator v with
      | inl (ValidationError message params) =>
          match get_error_detail message params with
          | inl e => inl e
          | inr detail => inr [(name, detail)]
          end
      | inl e => inl e
      | inr _ => inr []
      end
  end.

(** The errors of the declared fields, in their order. *)
Fixpoint collect (fields : list (Exc + list (str * ErrorDetail)))
  : Exc + list (str * ErrorDetail) :=
  match fields with
  | [] => inr []
  | inl e :: _ => inl e
  | inr errors :: fields' =>
      match collect fields' with
      | inl e => inl e
      | inr errors' => inr (errors ++ errors')
      end
  end.

Definition no_validator (_ : str) : Exc + unit := inr tt.

(** The fields of a partial update of a User: absent fields are [None]. *)
Record UserFields : Type :=
  { f_username : option str; f_email : option str;
    f_bio : option str; f_role : option Role }.

Section Serializers.

Variable unicode_alnum : N -> bool.

(** Modelled from the spec: SignUpSerializer (serializers.py is not among the
    sources) takes the fields username and email and validates the username
    against the pattern and the reserved word; [is_valid(raise_exception=True)]
    gives the validated data or raises the errors by field. *)
Definition SignUpSerializer_is_valid (d : QueryDict) : Exc + (str * str) :=
  match collect [field_errors (py "username") (get d (py "username"))
                              (validate_username unicode_alnum);
                 field_errors (py "email") (get d (py "email")) no_validator]
  with
  | inl e => inl e
  | inr errors =>
      match errors, get d (py "username"), get d (py "email") with
      | [], Some username, Some email => inr (username, email)
      | _, _, _ => inl (FieldErrors errors)
      end
  end.

(** [serializer.data] of a valid SignUpSerializer: the validated fields. *)
Definition SignUpSerializer_data (validated_data : str * str)
  : list (str * str) :=
  [(py "username", fst validated_data); (py "email", snd validated_data)].

(** Modelled from the spec: TokenSerializer (not among the sources) takes the
    fields username and confirmation_code. *)
Definition TokenSerializer_is_valid (d : QueryDict) : Exc + (str * str) :=
  match collect [field_errors (py "username") (get d (py "username"))
                              no_validator;
                 field_errors (py "confirmation_code")
                              (get d (py "confirmation_code")) no_validator]
  with
  | inl e => inl e
  | inr errors =>
      match errors, get d (py "username"), get d (py "confirmation_code") with
      | [], Some username, Some code => inr (username, code)
      | _, _, _ => inl (FieldErrors errors)
      end
  end.

Definition validate_role (v : str) : Exc + unit :=
  match Role_of_name v with
  | Some _ => inr tt
  | None => inl (ValidationError (py "Invalid choice.") [])
  end.

Definition partial_errors (name : str) (value : option str)
  (validator : str -> Exc + unit) : Exc + list (str * ErrorDetail) :=
  match value with
  | None => inr []
  | Some _ => field_errors name value validator
  end.

(** Modelled from the spec: UserSerializer (not among the sources) with
    [partial=True] over the attributes of a User; a field that is absent from
    the payload is skipped, a username is held to the username rule and a role
    to the role choices. *)
Definition UserSerializer_is_valid_partial (d : QueryDict) : Exc + UserFields :=
  match collect [partial_errors (py "username") (get d (py "username"))
                                (validate_username unicode_alnum);
                 partial_errors (py "email") (get d (py "email")) no_validator;
                 partial_errors (py "bio") (get d (py "bio")) no_validator;
                 partial_errors (py "role") (get d (py "role")) validate_role]
  with
  | inl e => inl e
  | inr [] =>
      inr {| f_username := get d (py "username");
             f_email := get d (py "email");
             f_bio := get d (py "bio");
             f_role := match get d (py "role") with
                       | Some v => Role_of_name v
                       | None => None
                       end |}
  | inr (error :: errors) => inl (FieldErrors (error :: errors))
  end.

End Serializers.

(** [serializer.data] of a UserSerializer over an instance. *)
Definition UserSerializer_data (u : User.t) : list (str * str) :=
  [(py "username", User.username u); (py "email", User.email u);
   (py "bio", User.bio u); (py "role", Role_name (User.role u))].

Definition or_else {A} (o : option A) (a : A) : A :=
  match o with Some x => x | None => a end.

(** [ModelSerializer.update]: every validated field is set on the instance,
    then the instance is saved. *)
Definition UserSerializer_update (instance : User.t) (v : UserFields)
  : M User.t :=
  let instance' :=
    User.mk (User.pk instance)
            (or_else (f_username v) (User.username instance))
            (or_else (f_email v) (User.email instance))
            (or_else (f_role v) (User.role instance))
            (or_else (f_bio v) (User.bio instance)) in
  _ <- User_save instance' ;;
  ret instance'.

(** [serializer.save(role=...)]: the keyword argument is merged over the
    validated data before the update. *)
Definition UserSerializer_save (instance : User.t) (validated_data : UserFields)
  (role : Role) : M User.t :=
  UserSerializer_update instance
    {| f_username := f_username validated_data;
       f_email := f_email validated_data;
       f_bio := f_bio validated_data;
       f_role := Some role |}.

(* ------------------------------------------------------------------------- *)
(** ** api/views.py: signup, token exchange, the caller's own record *)

Inductive Method : Type := GET | PATCH.

Section AuthViews.

Variable unicode_alnum : N -> bool.

(** django.contrib.auth.tokens.default_token_generator, at a given time. *)
Variable make_token : Z -> User.t -> str.
Variable check_token : Z -> User.t -> str -> bool.

(** [str(RefreshToken.for_user(user).access_token)], at a given time. *)
Variable access_token : Z -> User.t -> str.

(** [email.send()]: an exception of the transport is not caught. *)
Definition EmailMessage_send (env : Env) (m : EmailMessage) : M unit :=
  fun w =>
    if smtp_accepts env m then (inr tt, set_outbox (outbox w ++ [m]) w)
    else (inl SMTPException, w).

Definition confirmation_email (username email confirmation_code : str)
  : EmailMessage :=
  {| subject := py "Код подтверждения";
     body := py "Привет, " ++ username ++ py "." ++ [10%N]
             ++ py "Код подтверждения: " ++ confirmation_code;
     to := [email] |}.

(** APISignup.post *)
Definition APISignup_post (env : Env) (request_data : QueryDict) : M Response :=
  validated_data <- lift (SignUpSerializer_is_valid unicode_alnum request_data) ;;
  '(user, _) <- User_get_or_create (fst validated_data) (snd validated_data) ;;
  let confirmation_code := make_token (now env) user in
  _ <- EmailMessage_send env
         (confirmation_email (User.username user) (User.email user)
                             confirmation_code) ;;
  ret {| data := SignUpSerializer_data validated_data;
         status := HTTP_200_OK |}.

(** The body of APIGetToken.post once the serializer has validated. *)
Definition exchange (env : Env) (username confirmation_code : str)
  : M Response :=
  fun w =>
    match objects_get (fun u => str_eqb (User.username u) username) (users w)
    with
    | inl DoesNotExist =>
        (inr {| data := [(py "username", py "Пользователь не найден")];
                status := HTTP_404_NOT_FOUND |}, w)
    | inl e => (inl e, w)
    | inr user =>
        if check_token (now env) user confirmation_code then
          (inr {| data := [(py "token", access_token (now env) user)];
                  status := HTTP_200_OK |}, w)
        else
          (inr {| data := [(py "confirmation_code",
                            py "Неверный код подтверждения!")];
                  status := HTTP_400_BAD_REQUEST |}, w)
    end.

(** APIGetToken.post *)
Definition APIGetToken_post (env : Env) (request_data : QueryDict)
  : M Response :=
  validated_data <- lift (TokenSerializer_is_valid request_data) ;;
  exchange env (fst validated_data) (snd validated_data).

(** UserViewSet.get_current_user_info; [request_user] is [request.user]. *)
Definition get_current_user_info (method : Method) (request_user : User.t)
  (request_data : QueryDict) : M Response :=
  match method with
  | GET =>
      user <- (fun w =>
                 (get_object_or_404
                    (fun u => str_eqb (User.username u)
                                      (User.username request_user))
                    (users w), w)) ;;
      ret {| data := UserSerializer_data user; status := HTTP_200_OK |}
  | PATCH =>
      validated_data <-
        lift (UserSerializer_is_valid_partial unicode_alnum request_data) ;;
      instance <- UserSerializer_save request_user validated_data
                                      (User.role request_user) ;;
      ret {| data := UserSerializer_data instance; status := HTTP_200_OK |}
  end.

End AuthViews.

(* ------------------------------------------------------------------------- *)
(** ** The authentication flow as a transition system *)

Definition find_user (w : World) (pk : Z) : option User.t :=
  find (fun u => User.pk u =? pk) (users w).

Definition find_title (w : World) (pk : Z) : option Title.t :=
  find (fun t => Title.pk t =? pk) (titles w).

(** No two rows of the User table share a key, a username or an email. *)
Definition users_unique (w : World) : Prop :=
  NoDup (List.map User.pk (users w))
  /\ NoDup (List.map User.username (users w))
  /\ NoDup (List.map User.email (users w)).

(** A request to one of the three views; the caller of the own-record view
    is named by the key the access token asserts. *)
Inductive AuthRequest : Type :=
| PostSignup (env : Env) (d : QueryDict)
| PostToken (env : Env) (d : QueryDict)
| Me (method : Method) (caller : Z) (d : QueryDict).

Section Serve.

Variable unicode_alnum : N -> bool.
Variable make_token : Z -> User.t -> str.
Variable check_token : Z -> User.t -> str -> bool.
Variable access_token : Z -> User.t -> str.

(** The store a request leaves behind; a caller unknown to the store is
    turned away before the view runs. *)
Definition serve (rq : AuthRequest) (w : World) : World :=
  match rq with
  | PostSignup env d => snd (APISignup_post unicode_alnum make_token env d w)
  | PostToken env d => snd (APIGetToken_post check_token access_token env d w)
  | Me method caller d =>
      match find_user w caller with
      | Some request_user =>
          snd (get_current_user_info unicode_alnum method request_user d w)
      | None => w
      end
  end.

(** The stores the flow can reach from one without users. *)
Inductive reachable : World -> Prop :=
| reachable_start (w : World) : users w = [] -> reachable w
| reachable_serve (w : World) (rq : AuthRequest) :
    reachable w -> reachable (serve rq w).

End Serve.

(* ------------------------------------------------------------------------- *)
(** ** api/views.py: titles *)

(** The validated fields of a TitleSerializer; category and genre are not
    among them, the view passes them to [save]. *)
Record TitleFields : Type :=
  { v_name : option str; v_year : option Z; v_description : option str }.

Record TitleSerializer : Type :=
  { instance : option Title.t; validated_data : TitleFields }.

(** [serializer.save(category=..., genre=...)]: creates a row when the
    serializer has no instance, updates its instance otherwise; the
    many-to-many field is set to the rows given. *)
Definition TitleSerializer_save (s : TitleSerializer) (category : Category.t)
  (genre : list Genre.t) : M Title.t :=
  fun w =>
    let v := validated_data s in
    match instance s with
    | Some t =>
        let t' := Title.mk (Title.pk t)
                           (or_else (v_name v) (Title.name t))
                           (or_else (v_year v) (Title.year t))
                           (or_else (v_description v) (Title.description t))
                           (Some (Category.pk category))
                           (List.map Genre.pk genre) in
        (inr t',
         set_titles
           (List.map (fun x => if Title.pk x =? Title.pk t then t' else x)
                     (titles w))
           w)
    | None =>
        match v_name v, v_year v with
        | Some name, Some year =>
            let t' := Title.mk (next_pk (List.map Title.pk (titles w)))
                               name year (or_else (v_description v) [])
                               (Some (Category.pk category))
                               (List.map Genre.pk genre) in
            (inr t', set_titles (titles w ++ [t']) w)
        | _, _ => (inl IntegrityError, w)
        end
    end.

(** A JSON object as [request.data]: a plain dict.  A value is kept as what a
    lookup on a character column makes of it: [None] for null, the string
    for a string, [str(value)] for anything else. *)
Definition JsonDict := list (str * option str).

Fixpoint json_get (d : JsonDict) (key : str) : option str :=
  match d with
  | [] => None
  | (k, v) :: d' => if str_eqb k key then v else json_get d' key
  end.

(** [request.data]: a QueryDict for a form or multipart body, a dict for a
    JSON body. *)
Inductive RequestData : Type :=
| Form (d : QueryDict)
| Json (d : JsonDict).

(** [request.data.get(key)] *)
Definition data_get (data : RequestData) (key : str) : option str :=
  match data with
  | Form d => get d key
  | Json d => json_get d key
  end.

(** [request.data.getlist(key)]: a dict has no such attribute. *)
Definition data_getlist (data : RequestData) (key : str) : Exc + list str :=
  match data with
  | Form d => inr (getlist d key)
  | Json _ => inl AttributeError
  end.

(** TitleViewSet.perform_create *)
Definition perform_create (request_data : RequestData)
  (serializer : TitleSerializer) : M unit :=
  category <- (fun w =>
                 (get_object_or_404
                    (fun c => match data_get request_data (py "category") with
                              | Some v => str_eqb (Category.slug c) v
                              | None => false
                              end)
                    (categories w), w)) ;;
  slugs <- lift (data_getlist request_data (py "genre")) ;;
  genre <- (fun w =>
              (inr (filter (fun g => mem (Genre.slug g) slugs) (genres w)), w)) ;;
  _ <- TitleSerializer_save serializer category genre ;;
  ret tt.

(** TitleViewSet.perform_update *)
Definition perform_update (request_data : RequestData)
  (serializer : TitleSerializer) : M unit :=
  perform_create request_data serializer.

(** The column [reviews__score] of one title under the LEFT OUTER JOIN of the
    annotation: one value per review of the title, one NULL when it has none. *)
Definition reviews__score (rs : list Review.t) (t : Title.t) : list (option Z) :=
  match filter (fun r => Review.title_id r =? Title.pk t) rs with
  | [] => [None]
  | r :: rs' => List.map (fun x => Some (Review.score x)) (r :: rs')
  end.

Fixpoint non_null (col : list (option Z)) : list Z :=
  match col with
  | [] => []
  | Some v :: col' => v :: non_null col'
  | None :: col' => non_null col'
  end.

Definition total (vs : list Z) : Z := fold_right Z.add 0 vs.

(** The aggregate [Avg]: NULLs are skipped, and no value at all gives NULL.
    The quotient is kept exact here; the float that the database makes of it
    is [binary64] of this value, see [rating_float] below. *)
Definition Avg (col : list (option Z)) : option Q :=
  match non_null col with
  | [] => None
  | v :: vs => Some (Qmake (total (v :: vs)) (Pos.of_nat (List.length (v :: vs))))
  end.

Fixpoint str_leb (a b : str) : bool :=
  match a, b with
  | [], _ => true
  | _ :: _, [] => false
  | x :: a', y :: b' =>
      if (x <? y)%N then true else if (y <? x)%N then false else str_leb a' b'
  end.

Fixpoint insert_by_name (row : Title.t * option Q)
  (rows : list (Title.t * option Q)) : list (Title.t * option Q) :=
  match rows with
  | [] => [row]
  | r :: rows' =>
      if str_leb (Title.name (fst row)) (Title.name (fst r))
      then row :: r :: rows'
      else r :: insert_by_name row rows'
  end.

(** [.order_by('name')] *)
Definition order_by_name (rows : list (Title.t * option Q))
  : list (Title.t * option Q) :=
  fold_right insert_by_name [] rows.

(** TitleViewSet.queryset:
    [Title.objects.annotate(rating=Avg('reviews__score')).order_by('name')] *)
Definition TitleViewSet_queryset (w : World) : list (Title.t * option Q) :=
  order_by_name
    (List.map (fun t => (t, Avg (reviews__score (reviews w) t))) (titles w)).

(** Modelled from the spec: what TitleSerializer (not among the sources)
    renders of a row of the queryset: the fields of the title, and the
    annotation under rating.  The annotation is kept here as the exact
    quotient; [rating_float] below is the float that the response carries. *)
Record TitleData : Type := { title : Title.t; rating : option Q }.

Definition TitleSerializer_data (row : Title.t * option Q) : TitleData :=
  {| title := fst row; rating := snd row |}.

(** The list action of TitleViewSet, without filter parameters. *)
Definition TitleViewSet_list (w : World) : list TitleData :=
  List.map TitleSerializer_data (TitleViewSet_queryset w).

(** Django gives [Avg] over an integer column a FloatField: the annotation
    reaches Python, and then the response, as the float that the database
    makes of the quotient.  The database divides the sum by the count as
    doubles, which hold both exactly while they stay within 2^53, so the
    float is the binary64 number nearest to the quotient, a tie going to the
    even mantissa.  A float is kept as the rational it is; the quotient of
    64-bit integers by a count is far from the ends of the exponent range,
    which is left out. *)

(** [n / d] rounded to the nearest integer, a tie to the even one. *)
Definition round_half_even (n d : Z) : Z :=
  let q := n / d in
  match 2 * (n mod d) ?= d with
  | Lt => q
  | Gt => q + 1
  | Eq => if Z.even q then q else q + 1
  end.

(** The exponent [e] of the float for a positive [n / d]: the one with
    [2^52 <= n / d * 2^-e < 2^53]. *)
Definition exponent (n d : Z) : Z :=
  let k := Z.log2 n - Z.log2 d - 52 in
  if n * 2 ^ Z.max 0 (- k) <? 2 ^ 52 * (d * 2 ^ Z.max 0 k) then k - 1 else k.

(** The float for a positive [n / d]: the mantissa is [n / d * 2^-e]
    rounded, and the value the mantissa times [2^e]. *)
Definition binary64_pos (n d : Z) : Q :=
  let e := exponent n d in
  let m := round_half_even (n * 2 ^ Z.max 0 (- e)) (d * 2 ^ Z.max 0 e) in
  Qmake (m * 2 ^ Z.max 0 e) (Z.to_pos (2 ^ Z.max 0 (- e))).

Definition binary64 (x : Q) : Q :=
  match Qnum x with
  | 0 => 0%Q
  | Zpos n => binary64_pos (Zpos n) (Zpos (Qden x))
  | Zneg n => (- binary64_pos (Zpos n) (Zpos (Qden x)))%Q
  end.

(** The rating as the response carries it. *)
Definition rating_float (d : TitleData) : option Q :=
  option_map binary64 (rating d).

(* ------------------------------------------------------------------------- *)
(** ** What the statements below speak of *)

(** The character class of the username pattern, read off the pattern. *)
Definition username_char (unicode_alnum : N -> bool) (c : N) : bool :=
  is_word unicode_alnum c
  || (c =? 46)%N || (c =? 64)%N || (c =? 43)%N || (c =? 45)%N.

(** The values the username rule refuses: the reserved word, the empty
    string, and any string with a character outside the class. *)
Definition username_rejected (unicode_alnum : N -> bool) (value : str) : Prop :=
  value = py "me" \/ value = []
  \/ exists c, In c value /\ username_char unicode_alnum c = false.

(** The arithmetic mean of integer scores. *)
Definition mean (scores : list Z) : Q :=
  (inject_Z (total scores) / inject_Z (Z.of_nat (List.length scores)))%Q.

Definition scores_of (w : World) (t : Title.t) : list Z :=
  List.map Review.score
           (filter (fun r => Review.title_id r =? Title.pk t) (reviews w)).

(** The row [serializer.save(role=request.user.role)] writes. *)
Definition patched (request_user : User.t) (v : UserFields) : User.t :=
  User.mk (User.pk request_user)
          (or_else (f_username v) (User.username request_user))
          (or_else (f_email v) (User.email request_user))
          (User.role request_user)
          (or_else (f_bio v) (User.bio request_user)).

(** The three responses of the token exchange. *)
Definition not_found_response : Response :=
  {| data := [(py "username", py "Пользователь не найден")];
     status := HTTP_404_NOT_FOUND |}.

Definition invalid_code_response : Response :=
  {| data := [(py "confirmation_code", py "Неверный код подтверждения!")];
     status := HTTP_400_BAD_REQUEST |}.

Definition token_response (token : str) : Response :=
  {| data := [(py "token", token)]; status := HTTP_200_OK |}.



(* ------------------------------------------------------------------------- *)
(** ** api/views.py: reviews and comments *)

(** [self.kwargs]: the parameters captured from the path, by name. *)
Definition Kwargs := list (str * Z).

Fixpoint kwargs_get (kwargs : Kwargs) (key : str) : option Z :=
  match kwargs with
  | [] => None
  | (k, v) :: kwargs' => if str_eqb k key then Some v else kwargs_get kwargs' key
  end.

(** The integers the database can bind as a key (64 bits, signed). *)
Definition in_key_range (i : Z) : bool :=
  (- 9223372036854775808 <=? i) && (i <=? 9223372036854775807).

(** [get_object_or_404(Model, id=...)]: a parameter that is [None] matches
    no row, and an integer outside the range of the database cannot be bound
    to the query, which raises OverflowError. *)
Definition get_by_id_or_404 {R} (pk : R -> Z) (id : option Z) (table : list R)
  : Exc + R :=
  match id with
  | None => inl Http404
  | Some i =>
      if in_key_range i then get_object_or_404 (fun r => pk r =? i) table
      else inl OverflowError
  end.

Definition set_reviews (rs : list Review.t) (w : World) : World :=
  {| users := users w; categories := categories w; genres := genres w;
     titles := titles w; reviews := rs; outbox := outbox w |}.

(** The validated fields of a ReviewSerializer on create; author and title
    are not among them, the view passes them to [save]. *)
Record ReviewFields : Type := { v_text : str; v_score : Z }.

(** [serializer.save(author=..., title=...)] of a serializer without
    instance: one new Review row.
    Modelled from the spec: the store admits one review per author and
    title (models.py is not among the sources). *)
Definition ReviewSerializer_save (v : ReviewFields) (author : User.t)
  (title : Title.t) : M Review.t :=
  fun w =>
    if existsb (fun r => (Review.author_id r =? User.pk author)
                         && (Review.title_id r =? Title.pk title))
               (reviews w)
    then (inl IntegrityError, w)
    else
      let r := Review.mk (next_pk (List.map Review.pk (reviews w)))
                         (Title.pk title) (User.pk author)
                         (v_text v) (v_score v) in
      (inr r, set_reviews (reviews w ++ [r]) w).

(** ReviewViewSet.get_queryset *)
Definition ReviewViewSet_get_queryset (kwargs : Kwargs) : M (list Review.t) :=
  title <- (fun w =>
              (get_by_id_or_404 Title.pk (kwargs_get kwargs (py "title_id"))
                                (titles w), w)) ;;
  (fun w =>
     (inr (filter (fun r => Review.title_id r =? Title.pk title) (reviews w)),
      w)).

(** ReviewViewSet.perform_create; [request_user] is [request.user]. *)
Definition ReviewViewSet_perform_create (kwargs : Kwargs)
  (request_user : User.t) (serializer : ReviewFields) : M unit :=
  title <- (fun w =>
              (get_by_id_or_404 Title.pk (kwargs_get kwargs (py "title_id"))
                                (titles w), w)) ;;
  _ <- ReviewSerializer_save serializer request_user title ;;
  ret tt.

(** A row of the Comments table, with the columns the view names. *)
Module Comments.
Record t : Type := mk { pk : Z; review_id : Z; author_id : Z; text : str }.
End Comments.

(** The views of comments read the Review table of the store and work on the
    Comments table, which is passed to them and returned. *)
Definition CommentsViewSet_get_queryset (kwargs : Kwargs) (w : World)
  (comments : list Comments.t) : Exc + list Comments.t :=
  match get_by_id_or_404 Review.pk (kwargs_get kwargs (py "review_id"))
                         (reviews w)
  with
  | inl e => inl e
  | inr review =>
      inr (filter (fun c => Comments.review_id c =? Review.pk review) comments)
  end.

(** CommentsViewSet.perform_create, with the validated text of the
    serializer. *)
Definition CommentsViewSet_perform_create (kwargs : Kwargs)
  (request_user : User.t) (text : str) (w : World)
  (comments : list Comments.t) : (Exc + unit) * list Comments.t :=
  match get_by_id_or_404 Review.pk (kwargs_get kwargs (py "review_id"))
                         (reviews w)
  with
  | inl e => (inl e, comments)
  | inr review =>
      let c := Comments.mk (next_pk (List.map Comments.pk comments))
                           (Review.pk review) (User.pk request_user) text in
      (inr tt, comments ++ [c])
  end.

(* ------------------------------------------------------------------------- *)
(** ** More of what the statements below speak of *)

(** The tables no view of the authentication flow writes to. *)
Definition catalogue (w : World)
  : list Category.t * list Genre.t * list Title.t * list Review.t :=
  (categories w, genres w, titles w, reviews w).

(** The row an update of [t] stores, given the category and the genres the
    view has resolved. *)
Definition updated_title (t : Title.t) (v : TitleFields) (c : Category.t)
  (gs : list Genre.t) : Title.t :=
  Title.mk (Title.pk t)
           (or_else (v_name v) (Title.name t))
           (or_else (v_year v) (Title.year t))
           (or_else (v_description v) (Title.description t))
           (Some (Category.pk c))
           (List.map Genre.pk gs).

(** The genres the view resolves from the submitted slugs. *)
Definition submitted_genres (d : QueryDict) (w : World) : list Genre.t :=
  filter (fun g => mem (Genre.slug g) (getlist d (py "genre"))) (genres w).

(** Two calls as C4 has them for a valid username and email: the second
    call answers, and each call sends one message. *)
Definition signup_twice_as_claimed (unicode_alnum : N -> bool)
  (make_token : Z -> User.t -> str) (env1 env2 : Env) (d : QueryDict)
  (w : World) : Prop :=
  let run1 := APISignup_post unicode_alnum make_token env1 d w in
  let run2 := APISignup_post unicode_alnum make_token env2 d (snd run1) in
  (exists r, fst run2 = inr r)
  /\ List.length (outbox (snd run1)) = S (List.length (outbox w))
  /\ List.length (outbox (snd run2)) = S (List.length (outbox (snd run1))).

(** The update as C9 has it: a request that carries the slug of an existing
    category updates the title, to that category. *)
Definition title_update_as_claimed (data : RequestData) (t : Title.t)
  (v : TitleFields) (w : World) : Prop :=
  forall c,
    In c (categories w) ->
    data_get data (py "category") = Some (Category.slug c) ->
    exists t' w',
      perform_update data {| instance := Some t; validated_data := v |} w
      = (inr tt, w')
      /\ find_title w' (Title.pk t) = Some t'
      /\ Title.category t' = Some (Category.pk c).

(** The ratings as C5 has them: null without reviews, and otherwise the mean
    of the scores itself. *)
Definition ratings_as_claimed (w : World) : Prop :=
  forall d, In d (TitleViewSet_list w) ->
    match scores_of w (title d) with
    | [] => rating_float d = None
    | _ :: _ => exists q, rating_float d = Some q
                          /\ (q == mean (scores_of w (title d)))%Q
    end.

(** A binary64 float: a mantissa of at most 53 bits times a power of two. *)
Definition is_binary64 (q : Q) : Prop :=
  exists m e1 e2 : Z,
    Z.abs m <= 2 ^ 53 /\ 0 <= e1 /\ 0 <= e2
    /\ (q * inject_Z (2 ^ e1) == inject_Z (m * 2 ^ e2))%Q.

Definition name_le (a b : Title.t) : Prop :=
  str_leb (Title.name a) (Title.name b) = true.


(* ------------------------------------------------------------------------- *)
(** ** A small store and a few requests, to run the views on *)

Module Sample.

Definition alice : User.t :=
  User.mk 1 (py "alice") (py "alice@example.com") RegularUser (py "reader").

Definition solaris : Title.t := Title.mk 1 (py "Solaris") 1972 [] None [2].

Definition stalker : Title.t := Title.mk 2 (py "Stalker") 1979 [] None [].

Definition films : Category.t := Category.mk 1 (py "Films") (py "films").

Definition drama : Genre.t := Genre.mk 1 (py "Drama") (py "drama").

Definition comedy : Genre.t := Genre.mk 2 (py "Comedy") (py "comedy").

Definition store : World :=
  {| users := [alice];
     categories := [films];
     genres := [drama; comedy];
     titles := [solaris; stalker];
     reviews := [Review.mk 1 1 1 (py "slow") 7; Review.mk 2 1 5 (py "great") 10];
     outbox := [] |}.

(** No code point outside ASCII counts as alphanumeric here. *)
Definition ascii_only (_ : N) : bool := false.

(** A code that spells out the user and the second it was made in. *)
Definition code_of (now : Z) (u : User.t) : str :=
  User.username u ++ py "-" ++ [Z.to_N now].

(** Another generator, for runs that must differ in the code only. *)
Definition other_code_of (now : Z) (u : User.t) : str :=
  py "x" ++ User.email u.

(** A code verifies for one hour. *)
Definition code_checks (now : Z) (u : User.t) (code : str) : bool :=
  existsb (fun age => str_eqb code (code_of (now - age) u))
          (List.map Z.of_nat (seq 0 3600)).

Definition jwt_of (now : Z) (u : User.t) : str := py "jwt." ++ User.username u.

Definition mail_up (now : Z) : Env :=
  {| now := now; smtp_accepts := fun _ => true |}.

Definition mail_down (now : Z) : Env :=
  {| now := now; smtp_accepts := fun _ => false |}.

Definition signup_bob : QueryDict :=
  [(py "username", [py "bob"]); (py "email", [py "bob@example.com"])].

Definition signup_me : QueryDict :=
  [(py "username", [py "me"]); (py "email", [py "me@example.com"])].

Definition token_alice : QueryDict :=
  [(py "username", [py "alice"]);
   (py "confirmation_code", [code_of 100 alice])].

Definition token_nobody : QueryDict :=
  [(py "username", [py "nobody"]);
   (py "confirmation_code", [code_of 100 alice])].

Definition patch_role : QueryDict :=
  [(py "role", [py "admin"]); (py "bio", [py "critic"])].

Definition patch_title : QueryDict :=
  [(py "category", [py "films"]); (py "genre", [py "drama"; py "horror"])].

End Sample.

Module SampleMore.

Definition bob : User.t :=
  User.mk 2 (py "bob") (py "bob@example.com") RegularUser [].

Definition no_users : World :=
  {| users := []; categories := []; genres := []; titles := [];
     reviews := []; outbox := [] |}.

Definition signup_alice_elsewhere : QueryDict :=
  [(py "username", [py "alice"]); (py "email", [py "elsewhere@example.com"])].


Definition title_1 : Kwargs := [(py "title_id", 1)].

Definition title_2 : Kwargs := [(py "title_id", 2)].

Definition title_99_review_2 : Kwargs :=
  [(py "title_id", 99); (py "review_id", 2)].

Definition fine_review : ReviewFields := {| v_text := py "fine"; v_score := 4 |}.

Definition mirror : TitleFields :=
  {| v_name := Some (py "Mirror"); v_year := Some 1975;
     v_description := None |}.

Definition rename : TitleFields :=
  {| v_name := Some (py "Solyaris"); v_year := None; v_description := None |}.

Definition signup_percent : QueryDict :=
  [(py "username", [py "a%b"]); (py "email", [py "ab@example.com"])].

Definition twice_drama : QueryDict :=
  [(py "category", [py "films"]);
   (py "genre", [py "drama"; py "drama"; py "noir"])].

(** One title with three reviews, of the scores 1, 2 and 2. *)
Definition thirds : World :=
  {| users := []; categories := []; genres := [];
     titles := [Sample.solaris];
     reviews := [Review.mk 1 1 1 (py "dull") 1; Review.mk 2 1 2 (py "thin") 2;
                 Review.mk 3 1 3 (py "long") 2];
     outbox := [] |}.

(** A JSON body that names the category films and the genre drama. *)
Definition json_title : JsonDict :=
  [(py "category", Some (py "films")); (py "genre", Some (py "['drama']"))].

End SampleMore.

(* ========================================================================= *)
(** * Properties *)

Lemma str_eqb_eq (a b : str) : str_eqb a b = true <-> a = b.
Proof.
  revert b; induction a as [|x a IH]; intros [|y b]; simpl;
    try (split; (reflexivity || discriminate)).
  rewrite andb_true_iff, N.eqb_eq, IH.
  split; [intros [-> ->]; reflexivity | intros E; inversion E; auto].
Qed.

Lemma str_eqb_refl (a : str) : str_eqb a a = true.
Proof. apply str_eqb_eq; reflexivity. Qed.

Lemma str_eqb_neq (a b : str) : str_eqb a b = false <-> a <> b.
Proof.
  rewrite <- str_eqb_eq. destruct (str_eqb a b); split; congruence.
Qed.

(* ------------------------------------------------------------------------- *)
(** ** The validator *)

Section ValidatorFacts.

Variable unicode_alnum : N -> bool.

Local Abbreviation in_username_set := (in_set unicode_alnum username_set).

Lemma in_username_set_char (c : N) :
  in_username_set c = username_char unicode_alnum c.
Proof.
  unfold in_set, username_set, username_char; simpl.
  rewrite orb_false_r, !orb_assoc; reflexivity.
Qed.

(** Under the continuation [\Z], the greedy loop succeeds exactly when every
    remaining character is in the set: giving a character back never helps. *)
Lemma star_to_end (set : list set_item) (b : bool) (s : str) :
  star unicode_alnum set (match_here unicode_alnum [EndZ] b) s
  = forallb (in_set unicode_alnum set) s.
Proof.
  induction s as [|c s IH]; cbn [star forallb]; [reflexivity|].
  rewrite IH. destruct (in_set unicode_alnum set c); simpl;
    [apply orb_false_r | reflexivity].
Qed.

(** The anchor [^] fails at every start position but the first. *)
Lemma search_later_fails (s : str) :
  search_from unicode_alnum username_pattern false s = false.
Proof. induction s as [|c s IH]; simpl; [reflexivity | exact IH]. Qed.

Lemma re_search_username (s : str) :
  re_search unicode_alnum username_pattern s
  = match s with
    | [] => false
    | _ :: _ => forallb (username_char unicode_alnum) s
    end.
Proof.
  unfold re_search. destruct s as [|c s].
  - reflexivity.
  - cbn [search_from]. rewrite search_later_fails, orb_false_r.
    change (match_here unicode_alnum username_pattern true (c :: s))
      with (in_username_set c
            && star unicode_alnum username_set
                    (match_here unicode_alnum [EndZ] false) s).
    rewrite star_to_end. cbn [forallb].
    rewrite in_username_set_char. f_equal.
    induction s as [|d s IH]; cbn [forallb]; [reflexivity|].
    rewrite in_username_set_char, IH; reflexivity.
Qed.

Lemma forallb_false_iff {A} (f : A -> bool) (l : list A) :
  forallb f l = false <-> exists x, In x l /\ f x = false.
Proof.
  induction l as [|a l IH]; simpl.
  - split; [discriminate | intros (x & [] & _)].
  - rewrite andb_false_iff, IH. split.
    + intros [H | (x & Hx & Hf)]; [exists a | exists x]; auto.
    + intros (x & [-> | Hx] & Hf); [left | right; exists x]; auto.
Qed.

Lemma re_search_username_fails (s : str) :
  re_search unicode_alnum username_pattern s = false
  <-> s = [] \/ exists c, In c s /\ username_char unicode_alnum c = false.
Proof.
  rewrite re_search_username. destruct s as [|c s].
  - split; auto.
  - rewrite forallb_false_iff. split; [auto | intros [E | H]; [discriminate | exact H]].
Qed.

End ValidatorFacts.

Lemma validate_username_raises (unicode_alnum : N -> bool) (value : str) :
  (exists message,
      validate_username unicode_alnum value
      = inl (ValidationError message [(py "value", value)]))
  <-> username_rejected unicode_alnum value.
Proof.
  unfold validate_username, username_rejected.
  destruct (str_eqb value (py "me")) eqn:Eme.
  - apply str_eqb_eq in Eme. split; eauto.
  - apply str_eqb_neq in Eme.
    destruct (re_search unicode_alnum username_pattern value) eqn:Es; simpl.
    + split; [intros (m & H); discriminate|].
      intros [H | H]; [contradiction|].
      apply re_search_username_fails in H; congruence.
    + split; [|eauto]. intros _; right.
      apply re_search_username_fails; exact Es.
Qed.

Lemma validate_username_passes (unicode_alnum : N -> bool) (value : str) :
  validate_username unicode_alnum value = inr tt
  <-> ~ username_rejected unicode_alnum value.
Proof.
  rewrite <- validate_username_raises. unfold validate_username.
  destruct (str_eqb value (py "me")); [|destruct (negb _)];
    (split; [intros H; try discriminate; intros (m & Hm); discriminate
            | intros H; try reflexivity; exfalso; apply H; eauto]).
Qed.

Lemma validate_username_result (unicode_alnum : N -> bool) (value : str) :
  validate_username unicode_alnum value = inr tt
  \/ exists message,
      validate_username unicode_alnum value
      = inl (ValidationError message [(py "value", value)]).
Proof.
  unfold validate_username.
  destruct (str_eqb _ _); [|destruct (negb _)]; eauto.
Qed.

(* ------------------------------------------------------------------------- *)
(** ** Lookups in the store *)

Lemma filter_none {R} (f : R -> bool) (l : list R) :
  (forall r, In r l -> f r = false) -> filter f l = [].
Proof.
  induction l as [|a l IH]; intros H; [reflexivity|].
  cbn. rewrite (H a (or_introl eq_refl)). apply IH.
  intros r Hr; apply H; right; exact Hr.
Qed.

Lemma objects_get_found {R} (matches : R -> bool) (table : list R) (r : R) :
  objects_get matches table = inr r -> In r table /\ matches r = true.
Proof.
  unfold objects_get. destruct (filter matches table) as [|x [|y l]] eqn:E;
    try discriminate.
  intros H; inversion H; subst. apply filter_In. rewrite E; left; reflexivity.
Qed.

Lemma objects_get_none {R} (matches : R -> bool) (table : list R) :
  objects_get matches table = inl DoesNotExist
  <-> forall r, In r table -> matches r = false.
Proof.
  unfold objects_get. destruct (filter matches table) as [|x [|y l]] eqn:E.
  - split; [|reflexivity]. intros _ r Hr.
    destruct (matches r) eqn:Hm; [|reflexivity].
    assert (In r (filter matches table)) by (apply filter_In; auto).
    rewrite E in H; destruct H.
  - split; [discriminate|]. intros H.
    assert (In x (filter matches table)) as Hx by (rewrite E; left; auto).
    apply filter_In in Hx. rewrite (H x) in Hx; [destruct Hx; discriminate | tauto].
  - split; [discriminate|]. intros H.
    assert (In x (filter matches table)) as Hx by (rewrite E; left; auto).
    apply filter_In in Hx. rewrite (H x) in Hx; [destruct Hx; discriminate | tauto].
Qed.

Lemma objects_get_raises {R} (matches : R -> bool) (table : list R) (e : Exc) :
  objects_get matches table = inl e ->
  e = DoesNotExist \/ e = MultipleObjectsReturned.
Proof.
  unfold objects_get. destruct (filter matches table) as [|x [|y l]];
    intros H; inversion H; auto.
Qed.

(** [get_or_create], case by case on the first lookup. *)
Lemma User_get_or_create_cases (username email : str) (w : World) :
  match objects_get (same_identity username email) (users w) with
  | inr u => User_get_or_create username email w = (inr (u, false), w)
  | inl DoesNotExist =>
      if existsb (fun u => str_eqb (User.username u) username
                           || str_eqb (User.email u) email) (users w)
      then User_get_or_create username email w = (inl IntegrityError, w)
      else
        let u := User.mk (next_pk (List.map User.pk (users w)))
                         username email RegularUser [] in
        User_get_or_create username email w
        = (inr (u, true), set_users (users w ++ [u]) w)
  | inl e => User_get_or_create username email w = (inl e, w)
  end.
Proof.
  unfold User_get_or_create, User_create.
  destruct (objects_get (same_identity username email) (users w)) as [e|u] eqn:G;
    [|reflexivity].
  destruct e; try reflexivity.
  destruct (existsb _ (users w)); [rewrite G|]; reflexivity.
Qed.

Lemma User_get_or_create_raises (username email : str) (w w' : World) (e : Exc) :
  User_get_or_create username email w = (inl e, w') ->
  w' = w /\ (e = IntegrityError \/ e = MultipleObjectsReturned).
Proof.
  pose proof (User_get_or_create_cases username email w) as C.
  destruct (objects_get _ (users w)) as [x|u] eqn:G.
  - apply objects_get_raises in G. destruct G; subst x.
    + destruct (existsb _ (users w)); rewrite C; intros H; inversion H; auto.
    + rewrite C; intros H; inversion H; auto.
  - rewrite C; discriminate.
Qed.

(* ------------------------------------------------------------------------- *)
(** ** Signup *)

Section SignupFacts.

Variable unicode_alnum : N -> bool.
Variable make_token : Z -> User.t -> str.

Local Abbreviation signup := (APISignup_post unicode_alnum make_token).

(** The view, with the monad unfolded. *)
Lemma APISignup_post_step (env : Env) (d : QueryDict) (w : World) :
  signup env d w
  = match SignUpSerializer_is_valid unicode_alnum d with
    | inl e => (inl e, w)
    | inr v =>
        match User_get_or_create (fst v) (snd v) w with
        | (inl e, w') => (inl e, w')
        | (inr (user, _), w') =>
            let m := confirmation_email (User.username user) (User.email user)
                                        (make_token (now env) user) in
            if smtp_accepts env m
            then (inr {| data := SignUpSerializer_data v;
                         status := HTTP_200_OK |},
                  set_outbox (outbox w' ++ [m]) w')
            else (inl SMTPException, w')
        end
    end.
Proof.
  unfold APISignup_post, bind, lift, ret, EmailMessage_send.
  destruct (SignUpSerializer_is_valid unicode_alnum d) as [e|v]; [reflexivity|].
  destruct (User_get_or_create (fst v) (snd v) w) as [[e|[user created]] w'];
    [reflexivity|].
  destruct (smtp_accepts env _); reflexivity.
Qed.

Lemma SignUpSerializer_valid (d : QueryDict) (username email : str) :
  get d (py "username") = Some username ->
  get d (py "email") = Some email ->
  ~ username_rejected unicode_alnum username ->
  SignUpSerializer_is_valid unicode_alnum d = inr (username, email).
Proof.
  intros Hu He Hok. apply validate_username_passes in Hok.
  unfold SignUpSerializer_is_valid, field_errors. rewrite Hu, He, Hok.
  reflexivity.
Qed.

Lemma SignUpSerializer_valid_inv (d : QueryDict) (v : str * str) :
  SignUpSerializer_is_valid unicode_alnum d = inr v ->
  get d (py "username") = Some (fst v) /\ get d (py "email") = Some (snd v)
  /\ ~ username_rejected unicode_alnum (fst v).
Proof.
  unfold SignUpSerializer_is_valid, collect, field_errors, no_validator.
  destruct (get d (py "username")) as [u|];
    [|destruct (get d (py "email")); cbn; discriminate].
  destruct (validate_username_result unicode_alnum u) as [V | (m & V)];
    rewrite V; [|destruct (get_error_detail m _)];
    destruct (get d (py "email")) as [mail|]; cbn; try discriminate.
  intros H; inversion H; subst; cbn.
  repeat split. apply validate_username_passes; exact V.
Qed.

(** On a username the rule refuses, signup raises what the rendering of the
    error raises, and the field errors only when it renders. *)
Lemma signup_rejected_username (env : Env) (d : QueryDict) (w : World)
  (value message : str) :
  get d (py "username") = Some value ->
  validate_username unicode_alnum value
  = inl (ValidationError message [(py "value", value)]) ->
  match percent_raises message [(py "value", value)] with
  | Some e => signup env d w = (inl e, w)
  | None => exists errors, signup env d w = (inl (FieldErrors errors), w)
  end.
Proof.
  intros Hu V. rewrite APISignup_post_step.
  assert (field_errors (py "username") (Some value)
                       (validate_username unicode_alnum)
          = match get_error_detail message [(py "value", value)] with
            | inl e => inl e
            | inr detail => inr [(py "username", detail)]
            end) as F by (unfold field_errors; rewrite V; reflexivity).
  unfold SignUpSerializer_is_valid. rewrite Hu, F. unfold get_error_detail.
  destruct (percent_raises message _) as [e|]; [reflexivity|].
  unfold field_errors, no_validator.
  destruct (get d (py "email")); cbn; eexists; reflexivity.
Qed.

(** A message without [%] formats without an exception. *)
Lemma fmt_run_literal (params : list (str * str)) (arg : fmt_arg)
  (fresh : bool) (message : str) :
  ~ In 37%N message -> fmt_run params Literal arg fresh message = None.
Proof.
  induction message as [|c message IH]; intros Hno; [reflexivity|].
  cbn [fmt_run fmt_step]. destruct (N.eqb_spec c 37) as [-> | _].
  - exfalso; apply Hno; left; reflexivity.
  - apply IH. intros H; apply Hno; right; exact H.
Qed.

Lemma validate_username_renders (value message : str)
  (params : list (str * str)) :
  ~ In 37%N value ->
  validate_username unicode_alnum value = inl (ValidationError message params) ->
  percent_raises message params = None.
Proof.
  intros Hno V. unfold percent_raises. apply fmt_run_literal.
  unfold validate_username in V.
  destruct (str_eqb value (py "me")).
  - assert (message = py "Имя пользователя не может быть <me>.") as ->
        by congruence.
    vm_compute. intuition discriminate.
  - destruct (negb _); [|discriminate].
    assert (message
            = py "Недопустимые символы <" ++ value ++ py "> в username.") as ->
        by congruence.
    rewrite !in_app_iff. intros [H | [H | H]]; [|exact (Hno H)|];
      vm_compute in H; intuition discriminate.
Qed.

(** Signup raises the errors by field with username among them exactly on
    the usernames the rule refuses, as long as the message formats. *)
Lemma signup_username_error_iff (env : Env) (d : QueryDict) (w : World)
  (value : str) :
  get d (py "username") = Some value ->
  ~ In 37%N value ->
  (exists errors,
      signup env d w = (inl (FieldErrors errors), w)
      /\ In (py "username") (List.map fst errors))
  <-> username_rejected unicode_alnum value.
Proof.
  intros Hu Hno. rewrite APISignup_post_step.
  destruct (validate_username_result unicode_alnum value) as [V | (m & V)].
  - pose proof V as Hok. apply validate_username_passes in Hok.
    split; [|intros H; contradiction].
    intros (errors & Hres & Hkey). exfalso.
    destruct (get d (py "email")) as [mail|] eqn:He.
    + rewrite (SignUpSerializer_valid d value mail Hu He Hok) in Hres.
      cbn [fst snd] in Hres.
      destruct (User_get_or_create value mail w) as [[x|[user created]] w']
        eqn:G.
      * apply User_get_or_create_raises in G.
        destruct G as (_ & [-> | ->]); discriminate.
      * cbv zeta in Hres. destruct (smtp_accepts env _); discriminate.
    + unfold SignUpSerializer_is_valid, collect, field_errors in Hres.
      rewrite Hu, He, V in Hres. cbn in Hres. inversion Hres; subst.
      destruct Hkey as [E | []]. vm_compute in E. discriminate.
  - split; [intros _; apply validate_username_raises; eauto|].
    intros _.
    pose proof (validate_username_renders value m _ Hno V) as Hr.
    assert (field_errors (py "username") (Some value)
                         (validate_username unicode_alnum)
            = inr [(py "username",
                    {| detail_message := m;
                       detail_params := [(py "value", value)] |})]) as F
        by (unfold field_errors, get_error_detail; rewrite V, Hr; reflexivity).
    unfold SignUpSerializer_is_valid. rewrite Hu, F.
    unfold field_errors, no_validator.
    destruct (get d (py "email")); cbn; eexists;
      (split; [reflexivity | left; reflexivity]).
Qed.

End SignupFacts.

(** C3. [validate_username] raises its ValidationError on the username
    [a%b], which has a character outside the class, and passes the value as
    a parameter beside a message that already holds it; formatting that
    message with the parameters raises ValueError at the [%b], so that signup
    with this username raises ValueError, not an error of the field. *)
Theorem signup_percent_username_raises_ValueError :
  username_rejected Sample.ascii_only (py "a%b")
  /\ validate_username Sample.ascii_only (py "a%b")
     = inl (ValidationError (py "Недопустимые символы <a%b> в username.")
                            [(py "value", py "a%b")])
  /\ percent_raises (py "Недопустимые символы <a%b> в username.")
                    [(py "value", py "a%b")] = Some ValueError
  /\ APISignup_post Sample.ascii_only Sample.code_of (Sample.mail_up 100)
                    SampleMore.signup_percent Sample.store
     = (inl ValueError, Sample.store).
Proof.
  split.
  { right; right. exists 37%N. split; [|reflexivity].
    right; left; reflexivity. }
  split; [reflexivity|]. split; [reflexivity|].
  pose proof (signup_rejected_username Sample.ascii_only Sample.code_of
                (Sample.mail_up 100) SampleMore.signup_percent Sample.store
                (py "a%b") (py "Недопустимые символы <a%b> в username.")
                eq_refl eq_refl) as H.
  exact H.
Qed.

(** X21. [validate_username] raises its ValidationError, with the value as
    the parameter, exactly on the reserved word, on the empty string and on
    the strings with a character outside the class of the pattern; on every
    other string it returns. *)
Theorem validate_username_rejects_iff
  (unicode_alnum : N -> bool) (value : str) :
  ((exists message,
       validate_username unicode_alnum value
       = inl (ValidationError message [(py "value", value)]))
   <-> username_rejected unicode_alnum value)
  /\ (validate_username unicode_alnum value = inr tt
      <-> ~ username_rejected unicode_alnum value)
  /\ (validate_username unicode_alnum (py "me")
      = inl (ValidationError (py "Имя пользователя не может быть <me>.")
                             [(py "value", py "me")]))
  /\ (value <> py "me" -> username_rejected unicode_alnum value ->
      validate_username unicode_alnum value
      = inl (ValidationError
               (py "Недопустимые символы <" ++ value ++ py "> в username.")
               [(py "value", value)])).
Proof.
  split; [apply validate_username_raises|].
  split; [apply validate_username_passes|].
  split; [reflexivity|].
  intros Hme Hrej. apply validate_username_raises in Hrej.
  destruct Hrej as (m & V). rewrite V. revert V. unfold validate_username.
  apply str_eqb_neq in Hme. rewrite Hme.
  destruct (negb _); [|discriminate]. intros V; inversion V; reflexivity.
Qed.

(** X22. For a username without the character [%], signup fails with the
    errors by field, the field username among them, exactly when the rule
    refuses the username; it writes nothing then. *)
Theorem signup_username_error
  (unicode_alnum : N -> bool) (make_token : Z -> User.t -> str)
  (env : Env) (d : QueryDict) (w : World) (value : str) :
  get d (py "username") = Some value ->
  ~ In 37%N value ->
  (exists errors,
      APISignup_post unicode_alnum make_token env d w
      = (inl (FieldErrors errors), w)
      /\ In (py "username") (List.map fst errors))
  <-> username_rejected unicode_alnum value.
Proof. apply signup_username_error_iff. Qed.

Section SignupRuns.

Variable unicode_alnum : N -> bool.
Variable make_token : Z -> User.t -> str.

Local Abbreviation signup := (APISignup_post unicode_alnum make_token).

Lemma same_identity_iff (username email : str) (u : User.t) :
  same_identity username email u = true
  <-> User.username u = username /\ User.email u = email.
Proof.
  unfold same_identity. rewrite andb_true_iff, !str_eqb_eq. tauto.
Qed.

Lemma no_conflict_iff (username email : str) (us : list User.t) :
  existsb (fun u => str_eqb (User.username u) username
                    || str_eqb (User.email u) email) us = false
  <-> forall x, In x us -> User.username x <> username /\ User.email x <> email.
Proof.
  induction us as [|a us IH]; simpl.
  - split; [intros _ x [] | reflexivity].
  - rewrite orb_false_iff, IH, orb_false_iff, !str_eqb_neq. split.
    + intros [Ha H] x [<- | Hx]; auto.
    + intros H; split; [apply H; auto | intros x Hx; apply H; auto].
Qed.

(** What a successful [get_or_create] leaves behind: the row it returns is
    afterwards the one row of that identity, and the table is the old one, or
    the old one with that row appended. *)
Lemma User_get_or_create_ok (username email : str) (w w' : World)
  (user : User.t) (created : bool) :
  User_get_or_create username email w = (inr (user, created), w') ->
  objects_get (same_identity username email) (users w') = inr user
  /\ outbox w' = outbox w
  /\ ((created = false /\ w' = w)
      \/ (created = true
          /\ objects_get (same_identity username email) (users w)
             = inl DoesNotExist
          /\ user = User.mk (next_pk (List.map User.pk (users w)))
                            username email RegularUser []
          /\ w' = set_users (users w ++ [user]) w)).
Proof.
  pose proof (User_get_or_create_cases username email w) as C.
  destruct (objects_get _ (users w)) as [x|u] eqn:G.
  - destruct x; try (rewrite C; discriminate).
    destruct (existsb _ (users w)) eqn:X; [rewrite C; discriminate|].
    cbv zeta in C. rewrite C. intros H; inversion H; subst; clear H.
    cbn [users set_users outbox]. split; [|split; [reflexivity|right; auto]].
    unfold objects_get. rewrite filter_app.
    pose proof (proj1 (objects_get_none _ _) G) as G'.
    replace (filter _ (users w)) with (@nil User.t).
    + cbn. unfold same_identity; cbn. rewrite !str_eqb_refl. reflexivity.
    + symmetry. apply filter_none; exact G'.
  - rewrite C. intros H; inversion H; subst. auto.
Qed.

Lemma signup_ok_inv (env : Env) (d : QueryDict) (w w1 : World) (r : Response) :
  signup env d w = (inr r, w1) ->
  exists v user created w',
    SignUpSerializer_is_valid unicode_alnum d = inr v
    /\ User_get_or_create (fst v) (snd v) w = (inr (user, created), w')
    /\ smtp_accepts env (confirmation_email (User.username user)
                           (User.email user) (make_token (now env) user))
       = true
    /\ r = {| data := SignUpSerializer_data v; status := HTTP_200_OK |}
    /\ w1 = set_outbox
              (outbox w' ++ [confirmation_email (User.username user)
                               (User.email user) (make_token (now env) user)])
              w'.
Proof.
  rewrite APISignup_post_step.
  destruct (SignUpSerializer_is_valid unicode_alnum d) as [e|v]; [discriminate|].
  destruct (User_get_or_create (fst v) (snd v) w) as [[e|[user created]] w']
    eqn:G; [discriminate|].
  cbv zeta. destruct (smtp_accepts env _) eqn:S; [|discriminate].
  intros H; inversion H; subst. exists v, user, created, w'.
  repeat split; auto.
Qed.

End SignupRuns.

(** A second [get_or_create] of the same identity adds no row, whatever the
    first one did. *)
Lemma User_get_or_create_again (username email : str) (w w1 : World) :
  users w1 = users (snd (User_get_or_create username email w)) ->
  users (snd (User_get_or_create username email w1)) = users w1.
Proof.
  intros Hus.
  pose proof (User_get_or_create_cases username email w1) as C1.
  destruct (objects_get _ (users w1)) as [e|u] eqn:G1; [|rewrite C1; reflexivity].
  destruct e; try (rewrite C1; reflexivity).
  destruct (existsb _ (users w1)) eqn:X1; [rewrite C1; reflexivity|].
  exfalso.
  destruct (User_get_or_create username email w) as [[e|[user c]] w'] eqn:G.
  - pose proof G as G0.
    apply User_get_or_create_raises in G. destruct G as (-> & _).
    cbn [snd] in Hus.
    pose proof (User_get_or_create_cases username email w) as C.
    rewrite <- Hus, G1, X1 in C. cbv zeta in C.
    rewrite G0 in C. discriminate.
  - apply User_get_or_create_ok in G. destruct G as (G & _).
    cbn [snd] in Hus. rewrite <- Hus in G. congruence.
Qed.

Lemma User_get_or_create_grows (username email : str) (w : World) :
  (List.length (users (snd (User_get_or_create username email w)))
   <= List.length (users w) + 1)%nat.
Proof.
  pose proof (User_get_or_create_cases username email w) as C.
  destruct (objects_get _ (users w)) as [e|u]; [|rewrite C; cbn; lia].
  destruct e; try (rewrite C; cbn; lia).
  destruct (existsb _ (users w)); [rewrite C; cbn; lia|].
  cbv zeta in C. rewrite C. cbn [snd users set_users].
  rewrite length_app. cbn. lia.
Qed.

Lemma signup_users (unicode_alnum : N -> bool) (make_token : Z -> User.t -> str)
  (env : Env) (d : QueryDict) (w : World) :
  users (snd (APISignup_post unicode_alnum make_token env d w))
  = match SignUpSerializer_is_valid unicode_alnum d with
    | inl _ => users w
    | inr v => users (snd (User_get_or_create (fst v) (snd v) w))
    end.
Proof.
  rewrite APISignup_post_step.
  destruct (SignUpSerializer_is_valid unicode_alnum d) as [e|v]; [reflexivity|].
  destruct (User_get_or_create (fst v) (snd v) w) as [[e|[user c]] w'];
    [reflexivity|].
  cbv zeta. destruct (smtp_accepts env _); reflexivity.
Qed.

(** Two calls of signup with the same request, whatever the request. *)
Lemma signup_twice
  (unicode_alnum : N -> bool) (make_token : Z -> User.t -> str)
  (env1 env2 : Env) (d : QueryDict) (w : World) :
  let run1 := APISignup_post unicode_alnum make_token env1 d w in
  let run2 := APISignup_post unicode_alnum make_token env2 d (snd run1) in
  users (snd run2) = users (snd run1)
  /\ (List.length (users (snd run1)) <= List.length (users w) + 1)%nat
  /\ forall r1,
      fst run1 = inr r1 ->
      (forall m, smtp_accepts env2 m = true) ->
      exists username email user,
        get d (py "username") = Some username
        /\ get d (py "email") = Some email
        /\ filter (same_identity username email) (users (snd run1)) = [user]
        /\ outbox (snd run1)
           = outbox w
             ++ [confirmation_email username email
                                    (make_token (now env1) user)]
        /\ fst run2 = inr r1
        /\ outbox (snd run2)
           = outbox (snd run1)
             ++ [confirmation_email username email
                                    (make_token (now env2) user)].
Proof.
  intros run1 run2. subst run2.
  split; [|split].
  - rewrite signup_users. pose proof (signup_users unicode_alnum make_token
                                        env1 d w) as H1. fold run1 in H1.
    destruct (SignUpSerializer_is_valid unicode_alnum d) as [e|v];
      [reflexivity|].
    apply (User_get_or_create_again _ _ w). exact H1.
  - subst run1. rewrite signup_users.
    destruct (SignUpSerializer_is_valid unicode_alnum d) as [e|v]; [lia|].
    apply User_get_or_create_grows.
  - intros r1 Hr1 Hsmtp.
    unfold run1 in *. clear run1.
    destruct (APISignup_post unicode_alnum make_token env1 d w) as [res w1]
      eqn:H1.
    cbn [fst snd] in *. subst res.
    apply signup_ok_inv in H1.
    destruct H1 as (v & user & created & w' & Hv & Hg & _ & -> & ->).
    destruct (SignUpSerializer_valid_inv _ _ _ Hv) as (Hu & He & _).
    destruct (User_get_or_create_ok _ _ _ _ _ _ Hg) as (Hget & Hout & _).
    destruct (objects_get_found _ _ _ Hget) as (_ & Hid).
    apply same_identity_iff in Hid. destruct Hid as (Hname & Hmail).
    set (w1 := set_outbox _ w').
    assert (users w1 = users w') as Hus by reflexivity.
    exists (fst v), (snd v), user.
    split; [exact Hu|]. split; [exact He|].
    split.
    { rewrite Hus. unfold objects_get in Hget.
      destruct (filter _ (users w')) as [|x [|y l]]; try discriminate.
      inversion Hget; reflexivity. }
    split.
    { subst w1. cbn [outbox set_outbox]. rewrite Hout, Hname, Hmail.
      reflexivity. }
    rewrite APISignup_post_step, Hv.
    pose proof (User_get_or_create_cases (fst v) (snd v) w1) as C.
    rewrite Hus, Hget in C. rewrite C. cbv zeta. rewrite Hsmtp.
    rewrite Hname, Hmail. split; reflexivity.
Qed.

Lemma filter_at_most_one {R} (key : R -> str) (k : str) (f : R -> bool)
  (l : list R) :
  NoDup (List.map key l) -> (forall x, f x = true -> key x = k) ->
  (List.length (filter f l) <= 1)%nat.
Proof.
  intros Hnd Hkey. induction l as [|a l IH]; [cbn; lia|].
  cbn [List.map] in Hnd. inversion Hnd as [|x xs Ha Hl]; subst.
  cbn [filter]. destruct (f a) eqn:Fa; [|apply IH; exact Hl].
  rewrite filter_none; [cbn; lia|].
  intros r Hr. destruct (f r) eqn:Fr; [|reflexivity].
  exfalso. apply Ha. rewrite (Hkey a Fa), <- (Hkey r Fr).
  apply in_map; exact Hr.
Qed.

(** Over unique usernames, an identity that no row shares in part is
    fetched or created. *)
Lemma User_get_or_create_settled (username email : str) (w : World) :
  NoDup (List.map User.username (users w)) ->
  (forall x, In x (users w) ->
             (User.username x = username <-> User.email x = email)) ->
  exists user created w',
    User_get_or_create username email w = (inr (user, created), w').
Proof.
  intros Hnd Hwhole.
  pose proof (User_get_or_create_cases username email w) as C.
  destruct (objects_get _ (users w)) as [e|u] eqn:G; [|eauto].
  destruct (objects_get_raises _ _ _ G) as [-> | ->].
  - destruct (existsb _ (users w)) eqn:X; [|cbv zeta in C; eauto].
    exfalso. apply existsb_exists in X. destruct X as (x & Hx & Hb).
    pose proof (proj1 (objects_get_none _ _) G x Hx) as Hs.
    assert (same_identity username email x = true); [|congruence].
    apply same_identity_iff. apply orb_true_iff in Hb.
    rewrite !str_eqb_eq in Hb. pose proof (Hwhole x Hx). tauto.
  - exfalso.
    pose proof (filter_at_most_one User.username username
                  (same_identity username email) (users w) Hnd) as Hone.
    unfold objects_get in G.
    destruct (filter _ (users w)) as [|a [|b l]]; try discriminate.
    cbn in Hone. assert (2 <= 1)%nat; [|lia].
    assert (S (S (List.length l)) <= 1)%nat; [|lia].
    apply Hone. intros x Hx. apply same_identity_iff in Hx. tauto.
Qed.

(** C4. Signup twice with the same valid username and email, over unique
    usernames, when no row shares the identity in part and the transport
    accepts the mail: both calls answer with the submitted fields; the first
    creates at most one row and the second none, so that one row has the
    identity; and each call hands the transport exactly one message, to the
    submitted address, whose body greets the username and carries the code
    generated for that row at the time of the call. *)
Theorem signup_idempotent
  (unicode_alnum : N -> bool) (make_token : Z -> User.t -> str)
  (env1 env2 : Env) (d : QueryDict) (w : World) (username email : str) :
  get d (py "username") = Some username ->
  get d (py "email") = Some email ->
  ~ username_rejected unicode_alnum username ->
  NoDup (List.map User.username (users w)) ->
  (forall x, In x (users w) ->
             (User.username x = username <-> User.email x = email)) ->
  (forall m, smtp_accepts env1 m = true) ->
  (forall m, smtp_accepts env2 m = true) ->
  let run1 := APISignup_post unicode_alnum make_token env1 d w in
  let run2 := APISignup_post unicode_alnum make_token env2 d (snd run1) in
  let r := {| data := [(py "username", username); (py "email", email)];
              status := HTTP_200_OK |} in
  exists user,
    fst run1 = inr r /\ fst run2 = inr r
    /\ User.username user = username /\ User.email user = email
    /\ filter (same_identity username email) (users (snd run1)) = [user]
    /\ (List.length (users (snd run1)) <= List.length (users w) + 1)%nat
    /\ users (snd run2) = users (snd run1)
    /\ outbox (snd run1)
       = outbox w
         ++ [{| subject := py "Код подтверждения";
                body := py "Привет, " ++ username ++ py "." ++ [10%N]
                        ++ py "Код подтверждения: "
                        ++ make_token (now env1) user;
                to := [email] |}]
    /\ outbox (snd run2)
       = outbox (snd run1)
         ++ [{| subject := py "Код подтверждения";
                body := py "Привет, " ++ username ++ py "." ++ [10%N]
                        ++ py "Код подтверждения: "
                        ++ make_token (now env2) user;
                to := [email] |}].
Proof.
  intros Hu He Hok Hnd Hwhole Hsmtp1 Hsmtp2 run1 run2 r.
  assert (fst run1 = inr r) as H1.
  { subst run1. rewrite APISignup_post_step,
      (SignUpSerializer_valid _ _ _ _ Hu He Hok). cbn [fst snd].
    destruct (User_get_or_create_settled username email w Hnd Hwhole)
      as (user & created & w' & ->).
    cbv zeta. rewrite Hsmtp1. reflexivity. }
  destruct (signup_twice unicode_alnum make_token env1 env2 d w)
    as (Hus & Hlen & Hrest).
  fold run1 in Hus, Hlen, Hrest. fold run2 in Hus, Hrest.
  destruct (Hrest r H1 Hsmtp2)
    as (u & e & user & Hu' & He' & Hone & Hout1 & H2 & Hout2).
  assert (u = username) as -> by congruence.
  assert (e = email) as -> by congruence.
  assert (In user (filter (same_identity username email) (users (snd run1))))
    as Hin by (rewrite Hone; left; reflexivity).
  apply filter_In in Hin. destruct Hin as (_ & Hid).
  apply same_identity_iff in Hid. destruct Hid as (Hname & Hmail).
  exists user. repeat split; assumption.
Qed.

(** C7. The body of a successful signup response is the submitted username
    and email and nothing else, whatever code was generated: two successful
    runs on the same request under any two code generators (and any two
    clocks, transports and stores) answer with the same response. *)
Theorem signup_response_independent_of_code
  (unicode_alnum : N -> bool) (make_token1 make_token2 : Z -> User.t -> str)
  (env1 env2 : Env) (d : QueryDict) (wa wb w1 w2 : World) (r1 r2 : Response) :
  APISignup_post unicode_alnum make_token1 env1 d wa = (inr r1, w1) ->
  APISignup_post unicode_alnum make_token2 env2 d wb = (inr r2, w2) ->
  r1 = r2
  /\ exists username email,
      get d (py "username") = Some username
      /\ get d (py "email") = Some email
      /\ data r1 = [(py "username", username); (py "email", email)]
      /\ status r1 = HTTP_200_OK.
Proof.
  intros H1 H2.
  apply signup_ok_inv in H1. destruct H1 as (v & _ & _ & _ & Hv & _ & _ & -> & _).
  apply signup_ok_inv in H2.
  destruct H2 as (v' & _ & _ & _ & Hv' & _ & _ & -> & _).
  rewrite Hv in Hv'. inversion Hv'; subst v'. split; [reflexivity|].
  destruct (SignUpSerializer_valid_inv _ _ _ Hv) as (Hu & He & _).
  exists (fst v), (snd v). repeat split; assumption.
Qed.

(** C10. Signup writes the User row before it sends the mail: on a valid
    request whose identity is new to the store, when the transport refuses the
    message the exception leaves the view uncaught, and the store it leaves
    behind holds the row just created (and no message). *)
Theorem signup_mail_failure_keeps_user
  (unicode_alnum : N -> bool) (make_token : Z -> User.t -> str)
  (env : Env) (d : QueryDict) (w : World) (username email : str) :
  get d (py "username") = Some username ->
  get d (py "email") = Some email ->
  ~ username_rejected unicode_alnum username ->
  (forall x, In x (users w) ->
             User.username x <> username /\ User.email x <> email) ->
  let u := User.mk (next_pk (List.map User.pk (users w)))
                   username email RegularUser [] in
  smtp_accepts env (confirmation_email username email (make_token (now env) u))
  = false ->
  exists w',
    APISignup_post unicode_alnum make_token env d w = (inl SMTPException, w')
    /\ users w' = users w ++ [u]
    /\ ~ In u (users w)
    /\ outbox w' = outbox w.
Proof.
  intros Hu He Hok Hnew u Hsmtp.
  exists (set_users (users w ++ [u]) w).
  rewrite APISignup_post_step, (SignUpSerializer_valid _ _ _ _ Hu He Hok).
  cbn [fst snd].
  pose proof (User_get_or_create_cases username email w) as C.
  assert (objects_get (same_identity username email) (users w)
          = inl DoesNotExist) as G.
  { apply objects_get_none. intros r Hr.
    destruct (same_identity username email r) eqn:S; [|reflexivity].
    apply same_identity_iff in S. destruct (Hnew r Hr); tauto. }
  rewrite G in C. rewrite (proj2 (no_conflict_iff _ _ _) Hnew) in C.
  cbv zeta in C. rewrite C. cbv zeta. fold u. cbn [User.username User.email u].
  rewrite Hsmtp. repeat split.
  intros Hin. destruct (Hnew u Hin) as (Hn & _). apply Hn; reflexivity.
Qed.

(* ------------------------------------------------------------------------- *)
(** ** Token exchange *)

(** In a table without a repeated key, [get] by key finds every row. *)
Lemma objects_get_unique {R} (key : R -> str) (table : list R) (r : R) :
  NoDup (List.map key table) -> In r table ->
  objects_get (fun x => str_eqb (key x) (key r)) table = inr r.
Proof.
  unfold objects_get. induction table as [|a l IH]; intros Hnd Hin; [destruct Hin|].
  cbn [List.map] in Hnd. inversion Hnd as [|k ks Hnotin Hnd']; subst.
  cbn [filter]. destruct Hin as [-> | Hin].
  - rewrite str_eqb_refl. rewrite filter_none; [reflexivity|].
    intros x Hx. apply str_eqb_neq. intros E. apply Hnotin.
    rewrite <- E. apply in_map; exact Hx.
  - destruct (str_eqb (key a) (key r)) eqn:E.
    + apply str_eqb_eq in E. exfalso. apply Hnotin. rewrite E.
      apply in_map; exact Hin.
    + apply IH; assumption.
Qed.

Section TokenFacts.

Variable check_token : Z -> User.t -> str -> bool.
Variable access_token : Z -> User.t -> str.

Local Abbreviation token_post := (APIGetToken_post check_token access_token).

Lemma TokenSerializer_valid (d : QueryDict) (username code : str) :
  get d (py "username") = Some username ->
  get d (py "confirmation_code") = Some code ->
  TokenSerializer_is_valid d = inr (username, code).
Proof.
  intros Hu Hc. unfold TokenSerializer_is_valid, field_errors, no_validator.
  rewrite Hu, Hc. reflexivity.
Qed.

Lemma TokenSerializer_valid_inv (d : QueryDict) (v : str * str) :
  TokenSerializer_is_valid d = inr v ->
  get d (py "username") = Some (fst v)
  /\ get d (py "confirmation_code") = Some (snd v).
Proof.
  unfold TokenSerializer_is_valid, field_errors, no_validator.
  destruct (get d (py "username")); destruct (get d (py "confirmation_code"));
    cbn; try discriminate.
  intros H; inversion H; auto.
Qed.

(** The view on a request that carries both fields, by the outcome of the
    lookup. *)
Lemma APIGetToken_post_step (env : Env) (d : QueryDict) (w : World)
  (username code : str) :
  get d (py "username") = Some username ->
  get d (py "confirmation_code") = Some code ->
  token_post env d w
  = match objects_get (fun u => str_eqb (User.username u) username) (users w)
    with
    | inl DoesNotExist => (inr not_found_response, w)
    | inl e => (inl e, w)
    | inr user =>
        if check_token (now env) user code
        then (inr (token_response (access_token (now env) user)), w)
        else (inr invalid_code_response, w)
    end.
Proof.
  intros Hu Hc. unfold APIGetToken_post, bind, lift.
  rewrite (TokenSerializer_valid d username code Hu Hc). reflexivity.
Qed.

(** Token exchange never writes to the store. *)
Lemma APIGetToken_post_frame (env : Env) (d : QueryDict) (w : World) :
  snd (token_post env d w) = w.
Proof.
  unfold APIGetToken_post, bind, lift, exchange.
  destruct (TokenSerializer_is_valid d) as [e|v]; [reflexivity|].
  destruct (objects_get _ (users w)) as [[]|u]; try reflexivity.
  destruct (check_token _ _ _); reflexivity.
Qed.

End TokenFacts.

Lemma has_key_token_responses (token : str) :
  has_key (data (token_response token)) (py "token") = true
  /\ has_key (data not_found_response) (py "token") = false
  /\ has_key (data invalid_code_response) (py "token") = false.
Proof.
  repeat split; vm_compute; reflexivity.
Qed.


(** C8. The token exchange looks the user up before it looks at the code:
    when no user has the submitted username the answer is the 404 of the
    missing user, under every code and every code checker (the check is not
    consulted); and the 400 of the invalid code is only ever the answer when a
    user of that username exists whose code fails the check. *)
Theorem exchange_checks_user_first
  (check_token : Z -> User.t -> str -> bool) (access_token : Z -> User.t -> str)
  (env : Env) (d : QueryDict) (w : World) (username code : str) :
  get d (py "username") = Some username ->
  get d (py "confirmation_code") = Some code ->
  ((forall u, In u (users w) -> User.username u <> username) ->
   APIGetToken_post check_token access_token env d w
   = (inr not_found_response, w))
  /\ (fst (APIGetToken_post check_token access_token env d w)
      = inr invalid_code_response ->
      exists u, In u (users w) /\ User.username u = username
                /\ check_token (now env) u code = false).
Proof.
  intros Hu Hc.
  rewrite (APIGetToken_post_step _ _ env d w username code Hu Hc). split.
  - intros Hnone.
    assert (objects_get (fun x => str_eqb (User.username x) username) (users w)
            = inl DoesNotExist) as ->; [|reflexivity].
    apply objects_get_none. intros r Hr. apply str_eqb_neq. auto.
  - destruct (objects_get _ (users w)) as [e|u] eqn:G.
    + destruct e; cbn; intros H; inversion H.
    + destruct (objects_get_found _ _ _ G) as (Hin & Hname).
      apply str_eqb_eq in Hname.
      destruct (check_token (now env) u code) eqn:C; [|eauto].
      cbn; intros H; inversion H.
Qed.

(** C6. A confirmation code is not consumed by its exchange: the token
    exchange never changes the store, and after a successful exchange of a code
    for a user, the same request is answered with a token again at every
    moment at which the code still verifies for that (unchanged) user. *)
Theorem exchange_does_not_consume_code
  (check_token : Z -> User.t -> str -> bool) (access_token : Z -> User.t -> str)
  (env : Env) (d : QueryDict) (w w' : World) (r : Response) :
  APIGetToken_post check_token access_token env d w = (inr r, w') ->
  has_key (data r) (py "token") = true ->
  w' = w
  /\ (forall env0 d0 w0,
         snd (APIGetToken_post check_token access_token env0 d0 w0) = w0)
  /\ exists u code,
      get d (py "confirmation_code") = Some code
      /\ In u (users w') /\ get d (py "username") = Some (User.username u)
      /\ check_token (now env) u code = true
      /\ r = token_response (access_token (now env) u)
      /\ forall env',
          check_token (now env') u code = true ->
          APIGetToken_post check_token access_token env' d w'
          = (inr (token_response (access_token (now env') u)), w').
Proof.
  intros H Hk.
  pose proof (APIGetToken_post_frame check_token access_token env d w) as F.
  rewrite H in F. cbn in F. subst w'.
  split; [reflexivity|]. split; [intros; apply APIGetToken_post_frame|].
  destruct (TokenSerializer_is_valid d) as [e|v] eqn:V.
  { unfold APIGetToken_post, bind, lift in H. rewrite V in H. discriminate. }
  destruct (TokenSerializer_valid_inv d v V) as (Hu & Hc).
  rewrite (APIGetToken_post_step _ _ env d w _ _ Hu Hc) in H.
  destruct (has_key_token_responses []) as (_ & Hnf & Hic).
  destruct (objects_get _ (users w)) as [e|u] eqn:G.
  { destruct e; inversion H; subst r. rewrite Hnf in Hk; discriminate. }
  destruct (objects_get_found _ _ _ G) as (Hin & Hname).
  apply str_eqb_eq in Hname.
  destruct (check_token (now env) u (snd v)) eqn:C.
  - inversion H; subst r. exists u, (snd v). rewrite Hname.
    repeat split; auto.
    intros env' C'.
    rewrite (APIGetToken_post_step _ _ env' d w _ _ Hu Hc), G, C'. reflexivity.
  - inversion H; subst r. rewrite Hic in Hk; discriminate.
Qed.

(* ------------------------------------------------------------------------- *)
(** ** The caller's own record *)

Lemma find_map_replace {R} (key : R -> Z) (pk : Z) (r' : R) (l : list R) :
  key r' = pk ->
  forall q,
    find (fun x => key x =? q)
         (List.map (fun x => if key x =? pk then r' else x) l)
    = if q =? pk
      then match find (fun x => key x =? pk) l with
           | Some _ => Some r'
           | None => None
           end
      else find (fun x => key x =? q) l.
Proof.
  intros Hpk q. induction l as [|a l IH]; cbn [List.map find].
  - destruct (q =? pk); reflexivity.
  - destruct (key a =? pk) eqn:Ea.
    + apply Z.eqb_eq in Ea. rewrite Hpk, Ea.
      destruct (q =? pk) eqn:Eq.
      * apply Z.eqb_eq in Eq. subst q. rewrite !Z.eqb_refl. reflexivity.
      * rewrite Z.eqb_sym, Eq. rewrite IH. reflexivity.
    + destruct (q =? pk) eqn:Eq.
      * apply Z.eqb_eq in Eq. subst q. rewrite Ea.
        rewrite IH. reflexivity.
      * destruct (key a =? q); [reflexivity|].
        rewrite IH. reflexivity.
Qed.

Section OwnRecordFacts.

Variable unicode_alnum : N -> bool.

Local Abbreviation patch_me :=
  (get_current_user_info unicode_alnum PATCH).

Lemma patch_me_step (request_user : User.t) (d : QueryDict) (w : World) :
  patch_me request_user d w
  = match UserSerializer_is_valid_partial unicode_alnum d with
    | inl e => (inl e, w)
    | inr v =>
        match User_save (patched request_user v) w with
        | (inl e, w') => (inl e, w')
        | (inr _, w') =>
            (inr {| data := UserSerializer_data (patched request_user v);
                    status := HTTP_200_OK |}, w')
        end
    end.
Proof.
  unfold get_current_user_info, bind, lift, ret, UserSerializer_save,
    UserSerializer_update, bind, ret.
  destruct (UserSerializer_is_valid_partial unicode_alnum d) as [e|v];
    [reflexivity|].
  cbn [f_username f_email f_bio f_role or_else]. fold (patched request_user v).
  destruct (User_save (patched request_user v) w) as [[e|[]] w']; reflexivity.
Qed.

Lemma UserSerializer_valid_fields (d : QueryDict) (v : UserFields) :
  UserSerializer_is_valid_partial unicode_alnum d = inr v ->
  f_username v = get d (py "username")
  /\ f_email v = get d (py "email")
  /\ f_bio v = get d (py "bio").
Proof.
  unfold UserSerializer_is_valid_partial.
  destruct (collect _) as [e|[|error errors]]; try discriminate.
  intros H; inversion H; subst; cbn. auto.
Qed.

End OwnRecordFacts.

(** What a PATCH on the caller's own record leaves behind. *)
Lemma patch_me_effect
  (unicode_alnum : N -> bool) (request_user : User.t) (d : QueryDict)
  (w : World) :
  find_user w (User.pk request_user) = Some request_user ->
  let run := get_current_user_info unicode_alnum PATCH request_user d w in
  exists u',
    find_user (snd run) (User.pk request_user) = Some u'
    /\ User.role u' = User.role request_user
    /\ (forall r, fst run = inr r ->
          User.username u'
          = or_else (get d (py "username")) (User.username request_user)
          /\ User.email u'
             = or_else (get d (py "email")) (User.email request_user)
          /\ User.bio u' = or_else (get d (py "bio")) (User.bio request_user)
          /\ r = {| data := UserSerializer_data u'; status := HTTP_200_OK |}
          /\ forall pk, pk <> User.pk request_user ->
                        find_user (snd run) pk = find_user w pk)
    /\ (forall e, fst run = inl e -> snd run = w).
Proof.
  intros Hfind run. subst run. rewrite patch_me_step.
  destruct (UserSerializer_is_valid_partial unicode_alnum d) as [e|v] eqn:V.
  { exists request_user. cbn [fst snd].
    split; [exact Hfind|]. split; [reflexivity|]. split; [discriminate|auto]. }
  unfold User_save. destruct (existsb _ (users w)).
  { exists request_user. cbn [fst snd].
    split; [exact Hfind|]. split; [reflexivity|]. split; [discriminate|auto]. }
  exists (patched request_user v). cbn [fst snd].
  change (User.pk (patched request_user v)) with (User.pk request_user).
  destruct (UserSerializer_valid_fields _ _ _ V) as (Eu & Ee & Eb).
  assert (forall key,
            find_user (set_users
                         (List.map (fun x => if User.pk x =? User.pk request_user
                                             then patched request_user v else x)
                                   (users w)) w) key
            = if key =? User.pk request_user
              then Some (patched request_user v)
              else find_user w key) as Hf.
  { intros key. unfold find_user. cbn [users set_users].
    rewrite (find_map_replace User.pk (User.pk request_user)); [|reflexivity].
    unfold find_user in Hfind. rewrite Hfind. reflexivity. }
  split.
  { pose proof (Hf (User.pk request_user)) as H0.
    rewrite Z.eqb_refl in H0. exact H0. }
  split; [reflexivity|].
  split; [|discriminate].
  intros r Hr. inversion Hr; subst r.
  cbn [User.username User.email User.bio patched]. rewrite Eu, Ee, Eb.
  repeat split.
  intros pk Hpk. pose proof (Hf pk) as H0.
  apply Z.eqb_neq in Hpk. rewrite Hpk in H0. exact H0.
Qed.

(** A payload whose username, if any, passes the username rule and whose
    role, if any, is a role, is valid. *)
Lemma UserSerializer_valid (unicode_alnum : N -> bool) (d : QueryDict) :
  (forall value, get d (py "username") = Some value ->
                 ~ username_rejected unicode_alnum value) ->
  (forall value, get d (py "role") = Some value ->
                 Role_of_name value <> None) ->
  exists v, UserSerializer_is_valid_partial unicode_alnum d = inr v.
Proof.
  intros Hname Hrole.
  assert (partial_errors (py "username") (get d (py "username"))
                         (validate_username unicode_alnum) = inr []) as E1.
  { unfold partial_errors, field_errors.
    destruct (get d (py "username")) as [value|]; [|reflexivity].
    rewrite (proj2 (validate_username_passes unicode_alnum value)
                   (Hname value eq_refl)). reflexivity. }
  assert (forall name, partial_errors name (get d name) no_validator = inr [])
    as E2.
  { intros name. unfold partial_errors, field_errors, no_validator.
    destruct (get d name); reflexivity. }
  assert (partial_errors (py "role") (get d (py "role")) validate_role
          = inr []) as E3.
  { unfold partial_errors, field_errors, validate_role.
    destruct (get d (py "role")) as [value|]; [|reflexivity].
    specialize (Hrole value eq_refl).
    destruct (Role_of_name value); [reflexivity | contradiction]. }
  unfold UserSerializer_is_valid_partial. rewrite E1, !E2, E3. cbn [collect app].
  eexists; reflexivity.
Qed.

(** A valid payload that takes nobody else's username or email is
    answered. *)
Lemma patch_me_answers
  (unicode_alnum : N -> bool) (request_user : User.t) (d : QueryDict)
  (w : World) :
  (forall value, get d (py "username") = Some value ->
                 ~ username_rejected unicode_alnum value) ->
  (forall value, get d (py "role") = Some value ->
                 Role_of_name value <> None) ->
  (forall x, In x (users w) -> User.pk x <> User.pk request_user ->
             User.username x
             <> or_else (get d (py "username")) (User.username request_user)
             /\ User.email x
                <> or_else (get d (py "email")) (User.email request_user)) ->
  exists r,
    fst (get_current_user_info unicode_alnum PATCH request_user d w) = inr r.
Proof.
  intros Hname Hrole Hfree. rewrite patch_me_step.
  destruct (UserSerializer_valid unicode_alnum d Hname Hrole) as (v & V).
  rewrite V. destruct (UserSerializer_valid_fields _ _ _ V) as (Eu & Ee & _).
  unfold User_save.
  assert (existsb
            (fun x => negb (User.pk x =? User.pk (patched request_user v))
                      && (str_eqb (User.username x)
                                  (User.username (patched request_user v))
                          || str_eqb (User.email x)
                                     (User.email (patched request_user v))))
            (users w) = false) as ->.
  { destruct (existsb _ (users w)) eqn:X; [|reflexivity]. exfalso.
    apply existsb_exists in X. destruct X as (x & Hx & Hb).
    apply andb_true_iff in Hb. destruct Hb as (Hk & Hb).
    apply negb_true_iff, Z.eqb_neq in Hk.
    cbn [User.pk User.username User.email patched] in Hk, Hb.
    rewrite Eu, Ee in Hb.
    destruct (Hfree x Hx Hk) as (Hn & Hm).
    apply orb_true_iff in Hb. rewrite !str_eqb_eq in Hb. tauto. }
  cbn [fst]. eexists; reflexivity.
Qed.

(** C2. PATCH on the caller's own record: whatever the payload holds, a role
    included, the stored row of the caller has afterwards the role it had
    before; when the view answers, the username, email and bio that were
    submitted are the ones stored in that row (the others are kept), the
    answer renders that row and no other row has changed; when the view
    raises, nothing was written; and the view does answer whenever the
    submitted username passes the username rule, the submitted role is a
    role and nobody else has the resulting username or email. *)
Theorem patch_me_keeps_role
  (unicode_alnum : N -> bool) (request_user : User.t) (d : QueryDict)
  (w : World) :
  find_user w (User.pk request_user) = Some request_user ->
  let run := get_current_user_info unicode_alnum PATCH request_user d w in
  (exists u',
    find_user (snd run) (User.pk request_user) = Some u'
    /\ User.role u' = User.role request_user
    /\ (forall r, fst run = inr r ->
          User.username u'
          = or_else (get d (py "username")) (User.username request_user)
          /\ User.email u'
             = or_else (get d (py "email")) (User.email request_user)
          /\ User.bio u' = or_else (get d (py "bio")) (User.bio request_user)
          /\ r = {| data := UserSerializer_data u'; status := HTTP_200_OK |}
          /\ forall pk, pk <> User.pk request_user ->
                        find_user (snd run) pk = find_user w pk)
    /\ (forall e, fst run = inl e -> snd run = w))
  /\ ((forall value, get d (py "username") = Some value ->
                     ~ username_rejected unicode_alnum value) ->
      (forall value, get d (py "role") = Some value ->
                     Role_of_name value <> None) ->
      (forall x, In x (users w) -> User.pk x <> User.pk request_user ->
                 User.username x
                 <> or_else (get d (py "username")) (User.username request_user)
                 /\ User.email x
                    <> or_else (get d (py "email")) (User.email request_user)) ->
      exists r, fst run = inr r).
Proof.
  intros Hfind run. split.
  - apply (patch_me_effect unicode_alnum request_user d w Hfind).
  - apply patch_me_answers.
Qed.

(* ------------------------------------------------------------------------- *)
(** ** Titles *)

Lemma mem_In (x : str) (l : list str) : mem x l = true <-> In x l.
Proof.
  unfold mem. rewrite existsb_exists. split.
  - intros (y & Hy & E). apply str_eqb_eq in E. subst; exact Hy.
  - intros H. exists x. split; [exact H | apply str_eqb_refl].
Qed.

Lemma perform_create_step (data : RequestData) (s : TitleSerializer)
  (w : World) :
  perform_create data s w
  = match get_object_or_404
            (fun c => match data_get data (py "category") with
                      | Some v => str_eqb (Category.slug c) v
                      | None => false
                      end) (categories w)
    with
    | inl e => (inl e, w)
    | inr category =>
        match data_getlist data (py "genre") with
        | inl e => (inl e, w)
        | inr slugs =>
            match TitleSerializer_save s category
                    (filter (fun g => mem (Genre.slug g) slugs) (genres w)) w
            with
            | (inl e, w') => (inl e, w')
            | (inr _, w') => (inr tt, w')
            end
        end
    end.
Proof.
  unfold perform_create, bind, ret, lift.
  destruct (get_object_or_404 _ (categories w)) as [e|c]; [reflexivity|].
  destruct (data_getlist data (py "genre")) as [e|slugs]; [reflexivity|].
  destruct (TitleSerializer_save _ _ _ w) as [[e|t'] w']; reflexivity.
Qed.

Lemma perform_create_no_category (data : RequestData) (s : TitleSerializer)
  (w : World) :
  (forall c, In c (categories w) ->
             data_get data (py "category") <> Some (Category.slug c)) ->
  perform_create data s w = (inl Http404, w).
Proof.
  intros Hnone. rewrite perform_create_step. unfold get_object_or_404.
  assert (objects_get
            (fun c => match data_get data (py "category") with
                      | Some v => str_eqb (Category.slug c) v
                      | None => false
                      end) (categories w) = inl DoesNotExist) as ->;
    [|reflexivity].
  apply objects_get_none. intros c Hc. specialize (Hnone c Hc).
  destruct (data_get data (py "category")) as [v|]; [|reflexivity].
  apply str_eqb_neq. congruence.
Qed.

Lemma category_resolved (data : RequestData) (w : World) (c : Category.t) :
  NoDup (List.map Category.slug (categories w)) ->
  In c (categories w) ->
  data_get data (py "category") = Some (Category.slug c) ->
  get_object_or_404
    (fun x => match data_get data (py "category") with
              | Some v => str_eqb (Category.slug x) v
              | None => false
              end) (categories w) = inr c.
Proof.
  intros Hnd Hin Hcat. rewrite Hcat. unfold get_object_or_404.
  rewrite (objects_get_unique Category.slug _ c Hnd Hin). reflexivity.
Qed.

(** On a JSON body the view gets as far as the category, and no further. *)
Lemma perform_create_json (d : JsonDict) (s : TitleSerializer) (w : World)
  (c : Category.t) :
  NoDup (List.map Category.slug (categories w)) ->
  In c (categories w) ->
  json_get d (py "category") = Some (Category.slug c) ->
  perform_create (Json d) s w = (inl AttributeError, w).
Proof.
  intros Hnd Hin Hcat.
  rewrite perform_create_step, (category_resolved (Json d) w c Hnd Hin Hcat).
  reflexivity.
Qed.

(** The update of an existing title by the view, on a form body, as one step
    on the store. *)
Lemma perform_update_ok (d : QueryDict) (t : Title.t) (v : TitleFields)
  (w : World) (c : Category.t) :
  NoDup (List.map Category.slug (categories w)) ->
  In c (categories w) ->
  get d (py "category") = Some (Category.slug c) ->
  perform_update (Form d) {| instance := Some t; validated_data := v |} w
  = (inr tt,
     set_titles
       (List.map (fun x => if Title.pk x =? Title.pk t
                           then updated_title t v c (submitted_genres d w)
                           else x) (titles w)) w).
Proof.
  intros Hnd Hin Hcat. unfold perform_update.
  rewrite perform_create_step, (category_resolved (Form d) w c Hnd Hin Hcat).
  reflexivity.
Qed.

(** C9. Updating a title goes through [perform_create]: whatever the body,
    without a 'category' value that is the slug of an existing category the
    update fails with Http404 and writes nothing, also when the payload has
    no 'category' at all; on a form body with one (slugs being unique) the
    stored title gets that category, and its genres become exactly the
    genres whose slug is in the submitted 'genre' list, none when the list is
    empty. *)
Theorem title_update_reuses_create
  (data : RequestData) (d : QueryDict) (t : Title.t) (v : TitleFields)
  (w : World) :
  let s := {| instance := Some t; validated_data := v |} in
  perform_update data s w = perform_create data s w
  /\ ((forall c, In c (categories w) ->
                 data_get data (py "category") <> Some (Category.slug c)) ->
      perform_update data s w = (inl Http404, w))
  /\ (data_get data (py "category") = None ->
      perform_update data s w = (inl Http404, w))
  /\ (forall c,
         find_title w (Title.pk t) = Some t ->
         NoDup (List.map Category.slug (categories w)) ->
         In c (categories w) ->
         get d (py "category") = Some (Category.slug c) ->
         title_update_as_claimed (Form d) t v w
         /\ exists t' w',
           perform_update (Form d) s w = (inr tt, w')
           /\ find_title w' (Title.pk t) = Some t'
           /\ Title.category t' = Some (Category.pk c)
           /\ (forall k, In k (Title.genre t')
                         <-> exists g, In g (genres w) /\ Genre.pk g = k
                                       /\ In (Genre.slug g)
                                             (getlist d (py "genre")))
           /\ (getlist d (py "genre") = [] -> Title.genre t' = [])).
Proof.
  intros s.
  split; [reflexivity|].
  split; [apply perform_create_no_category|].
  split.
  { intros Hnone. apply perform_create_no_category.
    intros c _. rewrite Hnone. discriminate. }
  intros c Hfind Hnd Hin Hcat.
  assert (find_title
            (set_titles
               (List.map (fun x => if Title.pk x =? Title.pk t
                                   then updated_title t v c
                                          (submitted_genres d w)
                                   else x) (titles w)) w) (Title.pk t)
          = Some (updated_title t v c (submitted_genres d w))) as Hfind'.
  { unfold find_title. cbn [titles set_titles].
    rewrite (find_map_replace Title.pk (Title.pk t)); [|reflexivity].
    rewrite Z.eqb_refl. unfold find_title in Hfind. rewrite Hfind.
    reflexivity. }
  split.
  { intros c' Hin' Hcat'. cbn [data_get] in Hcat'.
    assert (c' = c) as ->.
    { pose proof (category_resolved (Form d) w c Hnd Hin Hcat) as R1.
      pose proof (category_resolved (Form d) w c' Hnd Hin' Hcat') as R2.
      congruence. }
    rewrite (perform_update_ok d t v w c Hnd Hin Hcat).
    eexists _, _. split; [reflexivity|]. split; [exact Hfind'|]. reflexivity. }
  subst s. rewrite (perform_update_ok d t v w c Hnd Hin Hcat).
  eexists _, _. split; [reflexivity|]. split; [exact Hfind'|].
  split; [reflexivity|].
  cbn [Title.genre updated_title]. unfold submitted_genres. split.
  - intros k. rewrite in_map_iff. split.
    + intros (g & Hk & Hg). apply filter_In in Hg. destruct Hg as (Hg & Hm).
      apply mem_In in Hm. eauto.
    + intros (g & Hg & Hk & Hm). exists g. split; [exact Hk|].
      apply filter_In. split; [exact Hg | apply mem_In; exact Hm].
  - intros Hempty. rewrite Hempty. rewrite filter_none; reflexivity.
Qed.

(* ------------------------------------------------------------------------- *)
(** ** The rating annotation *)

Lemma insert_by_name_In (row : Title.t * option Q)
  (rows : list (Title.t * option Q)) (x : Title.t * option Q) :
  In x (insert_by_name row rows) <-> x = row \/ In x rows.
Proof.
  induction rows as [|r rows IH]; cbn [insert_by_name].
  - cbn. intuition.
  - destruct (str_leb _ _); cbn [In]; [intuition|].
    rewrite IH. intuition.
Qed.

(** Ordering keeps the rows. *)
Lemma order_by_name_In (rows : list (Title.t * option Q))
  (x : Title.t * option Q) :
  In x (order_by_name rows) <-> In x rows.
Proof.
  unfold order_by_name. induction rows as [|r rows IH]; cbn [fold_right].
  - reflexivity.
  - rewrite insert_by_name_In, IH. cbn. intuition.
Qed.

Lemma non_null_all (vs : list Z) : non_null (List.map Some vs) = vs.
Proof. induction vs as [|v vs IH]; cbn; [|rewrite IH]; reflexivity. Qed.

(** The aggregate over the joined column is the mean of the title's scores,
    and NULL for a title without reviews. *)
Lemma Avg_reviews__score (w : World) (t : Title.t) :
  match scores_of w t with
  | [] => Avg (reviews__score (reviews w) t) = None
  | _ :: _ =>
      exists q, Avg (reviews__score (reviews w) t) = Some q
                /\ (q == mean (scores_of w t))%Q
  end.
Proof.
  unfold scores_of, reviews__score.
  destruct (filter _ (reviews w)) as [|r rs]; [reflexivity|].
  rewrite <- (map_map Review.score Some).
  unfold Avg. rewrite non_null_all.
  set (scores := List.map Review.score (r :: rs)).
  assert (exists x l, scores = x :: l) as (x & l & E) by (cbn; eauto).
  rewrite E. eexists; split; [reflexivity|].
  unfold mean. rewrite Qmake_Qdiv.
  replace (Z.pos (Pos.of_nat (List.length (x :: l))))
    with (Z.of_nat (List.length (x :: l))); [reflexivity|].
  cbn [List.length]. rewrite <- Pos.of_nat_succ. lia.
Qed.

(* ------------------------------------------------------------------------- *)
(** ** The float made of the average *)

Lemma round_half_even_near (n d : Z) :
  0 < d -> 2 * Z.abs (round_half_even n d * d - n) <= d.
Proof.
  intros Hd. unfold round_half_even.
  pose proof (Z.div_mod n d ltac:(lia)) as E.
  pose proof (Z.mod_pos_bound n d Hd) as B.
  set (q := n / d) in *. set (r := n mod d) in *. clearbody q r.
  assert (q * d - n = - r) as E0 by lia.
  assert ((q + 1) * d - n = d - r) as E1 by lia.
  destruct (Z.compare_spec (2 * r) d) as [C|C|C].
  - destruct (Z.even q); rewrite ?E0, ?E1; lia.
  - rewrite E0. lia.
  - rewrite E1. lia.
Qed.

Lemma round_half_even_exact (z d : Z) :
  0 < d -> round_half_even (z * d) d = z.
Proof.
  intros Hd. unfold round_half_even.
  rewrite Z.mod_mul, Z.div_mul by lia.
  change (2 * 0) with 0. destruct (Z.compare_spec 0 d); try reflexivity; lia.
Qed.

Lemma exponent_low (n d : Z) :
  0 < n -> 0 < d ->
  2 ^ 52 * (d * 2 ^ Z.max 0 (exponent n d))
  <= n * 2 ^ Z.max 0 (- exponent n d).
Proof.
  intros Hn Hd. unfold exponent.
  set (k := Z.log2 n - Z.log2 d - 52).
  destruct (n * 2 ^ Z.max 0 (- k) <? 2 ^ 52 * (d * 2 ^ Z.max 0 k)) eqn:C.
  2:{ apply Z.ltb_ge in C. exact C. }
  clear C.
  pose proof (Z.log2_spec n Hn) as [Ln _].
  pose proof (Z.log2_spec d Hd) as [_ Ld].
  pose proof (Z.log2_nonneg n). pose proof (Z.log2_nonneg d).
  destruct (Z.le_gt_cases 1 k) as [K|K].
  - rewrite (Z.max_r 0 (k - 1)), (Z.max_l 0 (- (k - 1))) by lia.
    rewrite Z.pow_0_r, Z.mul_1_r.
    assert (2 ^ 52 * 2 ^ (k - 1) * 2 ^ Z.succ (Z.log2 d) = 2 ^ Z.log2 n) as E.
    { rewrite <- !Z.pow_add_r by lia. f_equal. lia. }
    assert (0 < 2 ^ 52 * 2 ^ (k - 1)) by (apply Z.mul_pos_pos; apply Z.pow_pos_nonneg; lia).
    nia.
  - rewrite (Z.max_l 0 (k - 1)), (Z.max_r 0 (- (k - 1))) by lia.
    rewrite Z.pow_0_r, Z.mul_1_r.
    assert (2 ^ Z.log2 n * 2 ^ (- (k - 1)) = 2 ^ 52 * 2 ^ Z.succ (Z.log2 d)) as E.
    { rewrite <- !Z.pow_add_r by lia. f_equal. lia. }
    assert (0 < 2 ^ (- (k - 1))) by (apply Z.pow_pos_nonneg; lia).
    nia.
Qed.

Lemma exponent_high (n d : Z) :
  0 < n -> 0 < d ->
  n * 2 ^ Z.max 0 (- exponent n d)
  < 2 ^ 53 * (d * 2 ^ Z.max 0 (exponent n d)).
Proof.
  intros Hn Hd. unfold exponent.
  set (k := Z.log2 n - Z.log2 d - 52).
  pose proof (Z.log2_spec n Hn) as [_ Ln].
  pose proof (Z.log2_spec d Hd) as [Ld _].
  pose proof (Z.log2_nonneg n). pose proof (Z.log2_nonneg d).
  destruct (n * 2 ^ Z.max 0 (- k) <? 2 ^ 52 * (d * 2 ^ Z.max 0 k)) eqn:C.
  - apply Z.ltb_lt in C.
    destruct (Z.le_gt_cases 1 k) as [K|K].
    + rewrite (Z.max_r 0 (k - 1)), (Z.max_l 0 (- (k - 1))) by lia.
      rewrite (Z.max_r 0 k), (Z.max_l 0 (- k)) in C by lia.
      assert (2 ^ k = 2 * 2 ^ (k - 1)) as E
          by (rewrite <- Z.pow_succ_r by lia; f_equal; lia).
      rewrite E in C. rewrite Z.pow_0_r in *. lia.
    + rewrite (Z.max_l 0 (k - 1)), (Z.max_r 0 (- (k - 1))) by lia.
      rewrite (Z.max_l 0 k), (Z.max_r 0 (- k)) in C by lia.
      assert (2 ^ (- (k - 1)) = 2 * 2 ^ (- k)) as E
          by (rewrite <- Z.pow_succ_r by lia; f_equal; lia).
      rewrite E. rewrite Z.pow_0_r in *. lia.
  - clear C.
    destruct (Z.le_gt_cases 0 k) as [K|K].
    + rewrite (Z.max_r 0 k), (Z.max_l 0 (- k)) by lia.
      rewrite Z.pow_0_r, Z.mul_1_r.
      assert (2 ^ 53 * 2 ^ k * 2 ^ Z.log2 d = 2 ^ Z.succ (Z.log2 n)) as E.
      { rewrite <- !Z.pow_add_r by lia. f_equal. lia. }
      assert (0 < 2 ^ 53 * 2 ^ k)
        by (apply Z.mul_pos_pos; apply Z.pow_pos_nonneg; lia).
      nia.
    + rewrite (Z.max_l 0 k), (Z.max_r 0 (- k)) by lia.
      rewrite Z.pow_0_r, Z.mul_1_r.
      assert (2 ^ Z.succ (Z.log2 n) * 2 ^ (- k) = 2 ^ 53 * 2 ^ Z.log2 d) as E.
      { rewrite <- !Z.pow_add_r by lia. f_equal. lia. }
      assert (0 < 2 ^ (- k)) by (apply Z.pow_pos_nonneg; lia).
      nia.
Qed.

Lemma binary64_pos_error (n : Z) (d : positive) :
  0 < n ->
  (Qabs (binary64_pos n (Zpos d) - Qmake n d) * inject_Z (2 ^ 53)
   <= Qmake n d)%Q.
Proof.
  intros Hn. unfold binary64_pos.
  pose proof (exponent_low n (Zpos d) Hn eq_refl) as L.
  set (e := exponent n (Zpos d)) in *. clearbody e.
  assert (0 < 2 ^ Z.max 0 e) as HP by (apply Z.pow_pos_nonneg; lia).
  assert (0 < 2 ^ Z.max 0 (- e)) as HQ by (apply Z.pow_pos_nonneg; lia).
  set (P := 2 ^ Z.max 0 e) in *. set (R := 2 ^ Z.max 0 (- e)) in *.
  clearbody P R.
  pose proof (round_half_even_near (n * R) (Zpos d * P) ltac:(lia)) as Hm.
  set (m := round_half_even (n * R) (Zpos d * P)) in *. clearbody m.
  unfold Qle, Qabs, Qminus, Qplus, Qopp, Qmult, inject_Z. cbn [Qnum Qden].
  rewrite !Pos2Z.inj_mul, Z2Pos.id by exact HQ.
  replace (m * P * Z.pos d + - n * R) with (m * (Z.pos d * P) - n * R) by ring.
  set (A := Z.abs (m * (Z.pos d * P) - n * R)) in *. clearbody A.
  change (2 ^ 53) with (2 * 2 ^ 52). change (2 ^ 52) with 4503599627370496 in *.
  assert (A * (2 * 4503599627370496) <= n * R) by lia.
  pose proof (Pos2Z.is_pos d). nia.
Qed.

Lemma binary64_error (x : Q) :
  (Qabs (binary64 x - x) * inject_Z (2 ^ 53) <= Qabs x)%Q.
Proof.
  destruct x as [[|n|n] d]; unfold binary64; cbn [Qnum Qden].
  - vm_compute. discriminate.
  - apply (binary64_pos_error (Zpos n) d). reflexivity.
  - pose proof (binary64_pos_error (Zpos n) d eq_refl) as H.
    assert (- binary64_pos (Z.pos n) (Z.pos d) - (Z.neg n # d)
            == - (binary64_pos (Z.pos n) (Z.pos d) - (Z.pos n # d)))%Q as E.
    { change (Qmake (Z.neg n) d) with (- (Qmake (Z.pos n) d))%Q. ring. }
    rewrite E, Qabs_opp. exact H.
Qed.

Lemma binary64_pos_exact (n : Z) (d : positive) (z j : Z) :
  0 < n -> 0 <= j -> z < 2 ^ 53 ->
  n * 2 ^ j = z * Zpos d ->
  (binary64_pos n (Zpos d) == Qmake n d)%Q.
Proof.
  intros Hn Hj Hz E. unfold binary64_pos.
  pose proof (exponent_low n (Zpos d) Hn eq_refl) as L.
  set (e := exponent n (Zpos d)) in *. clearbody e.
  assert (0 < 2 ^ j) as H2j by (apply Z.pow_pos_nonneg; lia).
  pose proof (Pos2Z.is_pos d) as Hd.
  assert (0 < z) as Hz0 by nia.
  (* the exponent is at most -j *)
  assert (e <= - j) as He.
  { destruct (Z.le_gt_cases e (- j)) as [|G]; [assumption|exfalso].
    destruct (Z.le_gt_cases 0 e) as [K|K].
    - rewrite (Z.max_r 0 e), (Z.max_l 0 (- e)), Z.pow_0_r in L by lia.
      assert (2 <= 2 ^ e * 2 ^ j) as He1.
      { rewrite <- Z.pow_add_r by lia.
        apply (Z.pow_le_mono_r 2 1 (e + j)); lia. }
      change (2 ^ 53) with (2 * 2 ^ 52) in Hz.
      change (2 ^ 52) with 4503599627370496 in *.
      set (a := 2 ^ e) in *. set (b := 2 ^ j) in *. clearbody a b.
      assert (4503599627370496 * (Z.pos d * a) * b <= z * Z.pos d) as H1.
      { rewrite <- E. apply Z.mul_le_mono_nonneg_r; lia. }
      replace (4503599627370496 * (Z.pos d * a) * b)
        with (4503599627370496 * Z.pos d * (a * b)) in H1 by ring.
      nia.
    - rewrite (Z.max_l 0 e), (Z.max_r 0 (- e)), Z.pow_0_r in L by lia.
      assert (2 ^ j = 2 ^ (- e) * 2 ^ (j + e)) as Ej
          by (rewrite <- Z.pow_add_r by lia; f_equal; lia).
      assert (2 <= 2 ^ (j + e)) as He2
          by (apply (Z.pow_le_mono_r 2 1 (j + e)); lia).
      assert (0 < 2 ^ (- e)) as He0 by (apply Z.pow_pos_nonneg; lia).
      rewrite Ej in E.
      change (2 ^ 53) with (2 * 2 ^ 52) in Hz.
      change (2 ^ 52) with 4503599627370496 in *.
      set (a := 2 ^ (- e)) in *. set (b := 2 ^ (j + e)) in *. clearbody a b.
      assert (4503599627370496 * (Z.pos d * 1) * b <= z * Z.pos d) as H1.
      { replace (z * Z.pos d) with (n * a * b) by lia.
        apply Z.mul_le_mono_nonneg_r; lia. }
      nia. }
  rewrite (Z.max_l 0 e), (Z.max_r 0 (- e)), Z.pow_0_r, !Z.mul_1_r by lia.
  assert (2 ^ (- e) = 2 ^ j * 2 ^ (- e - j)) as Ee
      by (rewrite <- Z.pow_add_r by lia; f_equal; lia).
  assert (0 < 2 ^ (- e - j)) by (apply Z.pow_pos_nonneg; lia).
  assert (n * 2 ^ (- e) = (z * 2 ^ (- e - j)) * Z.pos d) as EN
      by (rewrite Ee; nia).
  rewrite EN, round_half_even_exact by lia.
  unfold Qeq. cbn [Qnum Qden].
  rewrite Z2Pos.id by (apply Z.pow_pos_nonneg; lia).
  rewrite <- EN. ring.
Qed.

Lemma binary64_exact (x : Q) (z j : Z) :
  0 <= j -> Z.abs z < 2 ^ 53 ->
  (x * inject_Z (2 ^ j) == inject_Z z)%Q ->
  (binary64 x == x)%Q.
Proof.
  intros Hj Hz E. destruct x as [[|n|n] d]; unfold binary64; cbn [Qnum Qden].
  - reflexivity.
  - apply (binary64_pos_exact (Zpos n) d z j); [reflexivity | exact Hj | lia |].
    unfold Qeq, Qmult, inject_Z in E. cbn [Qnum Qden] in E. lia.
  - change (Qmake (Z.neg n) d) with (- (Qmake (Z.pos n) d))%Q.
    apply Qopp_comp.
    apply (binary64_pos_exact (Zpos n) d (- z) j);
      [reflexivity | exact Hj | lia |].
    unfold Qeq, Qmult, inject_Z in E. cbn [Qnum Qden] in E. lia.
Qed.

Lemma binary64_pos_is_float (n : Z) (d : positive) :
  0 < n -> is_binary64 (binary64_pos n (Zpos d)).
Proof.
  intros Hn. unfold binary64_pos.
  pose proof (exponent_high n (Zpos d) Hn eq_refl) as U.
  set (e := exponent n (Zpos d)) in *. clearbody e.
  assert (0 < 2 ^ Z.max 0 e) as HP by (apply Z.pow_pos_nonneg; lia).
  assert (0 < 2 ^ Z.max 0 (- e)) as HR by (apply Z.pow_pos_nonneg; lia).
  pose proof (round_half_even_near (n * 2 ^ Z.max 0 (- e))
                (Zpos d * 2 ^ Z.max 0 e) ltac:(lia)) as Hm.
  set (m := round_half_even _ _) in *. clearbody m.
  exists m, (Z.max 0 (- e)), (Z.max 0 e).
  split; [|split; [lia|split; [lia|]]].
  - set (N := n * 2 ^ Z.max 0 (- e)) in *.
    set (D := Zpos d * 2 ^ Z.max 0 e) in *.
    assert (0 < D) as HD by (unfold D; lia).
    assert (0 < N) as HN by (unfold N; lia).
    clearbody N D. change (2 ^ 53) with 9007199254740992 in *.
    assert (m <= 9007199254740992) by nia.
    assert (- 1 < m) by nia.
    lia.
  - unfold Qeq, Qmult, inject_Z. cbn [Qnum Qden].
    rewrite !Pos2Z.inj_mul, Z2Pos.id by exact HR. ring.
Qed.

Lemma binary64_is_float (x : Q) : is_binary64 (binary64 x).
Proof.
  destruct x as [[|n|n] d]; unfold binary64; cbn [Qnum Qden].
  - exists 0, 0, 0. repeat split; lia.
  - apply binary64_pos_is_float. reflexivity.
  - destruct (binary64_pos_is_float (Zpos n) d eq_refl)
      as (m & e1 & e2 & Hm & H1 & H2 & E).
    exists (- m), e1, e2. split; [lia|]. split; [exact H1|].
    split; [exact H2|].
    replace (- m * 2 ^ e2) with (- (m * 2 ^ e2)) by ring.
    rewrite inject_Z_opp, <- E. ring.
Qed.

(** C5. For a store whose sums of scores stay within 2^53: every title is
    listed by the titles endpoint; the rating listed with a title that has
    no review is null; the rating listed with a title that has reviews is a
    binary64 float within 2^-53 of the mean of their scores, relative to
    that mean, and is the mean itself whenever the mean is such a float (a
    fraction z / 2^j with fewer than 53 bits in z). *)
Theorem title_rating_is_rounded_mean (w : World) (t : Title.t) :
  (forall x, In x (titles w) -> Z.abs (total (scores_of w x)) <= 2 ^ 53) ->
  In t (titles w) ->
  (exists d, In d (TitleViewSet_list w) /\ title d = t)
  /\ forall d, In d (TitleViewSet_list w) -> title d = t ->
       match scores_of w t with
       | [] => rating_float d = None
       | _ :: _ =>
           exists q,
             rating_float d = Some q
             /\ is_binary64 q
             /\ (Qabs (q - mean (scores_of w t)) * inject_Z (2 ^ 53)
                 <= Qabs (mean (scores_of w t)))%Q
             /\ forall z j,
                 0 <= j -> Z.abs z < 2 ^ 53 ->
                 (mean (scores_of w t) * inject_Z (2 ^ j) == inject_Z z)%Q ->
                 (q == mean (scores_of w t))%Q
       end.
Proof.
  intros _ Hin. unfold TitleViewSet_list, TitleViewSet_queryset. split.
  - exists (TitleSerializer_data (t, Avg (reviews__score (reviews w) t))).
    split; [|reflexivity].
    apply in_map. apply order_by_name_In.
    apply (in_map (fun t => (t, Avg (reviews__score (reviews w) t)))).
    exact Hin.
  - intros d Hd Ht. apply in_map_iff in Hd. destruct Hd as (row & <- & Hrow).
    apply (proj1 (order_by_name_In _ _)) in Hrow. apply in_map_iff in Hrow.
    destruct Hrow as (t0 & <- & _). cbn in Ht. subst t0.
    unfold rating_float. cbn [rating TitleSerializer_data snd].
    pose proof (Avg_reviews__score w t) as HA.
    destruct (scores_of w t) as [|s l].
    + rewrite HA. reflexivity.
    + destruct HA as (q & -> & Hq). cbn [option_map].
      exists (binary64 q). split; [reflexivity|].
      split; [apply binary64_is_float|].
      pose proof (binary64_error q) as Herr.
      split.
      * set (f := binary64 q) in *. clearbody f.
        rewrite Hq in Herr. exact Herr.
      * intros z j Hj Hz E. rewrite <- Hq in E |- *.
        apply (binary64_exact q z j Hj Hz E).
Qed.

(* ------------------------------------------------------------------------- *)
(** ** The uniqueness of users is an invariant of the flow *)

Lemma NoDup_snoc {A} (l : list A) (x : A) :
  NoDup l -> ~ In x l -> NoDup (l ++ [x]).
Proof.
  induction l as [|a l IH]; intros Hnd Hx; cbn.
  - constructor; [intros [] | constructor].
  - inversion Hnd as [|b l' Ha Hl]; subst. constructor.
    + rewrite in_app_iff. intros [H | [-> | []]]; [auto|].
      apply Hx; left; reflexivity.
    + apply IH; [exact Hl|]. intros H; apply Hx; right; exact H.
Qed.

Lemma next_pk_above (pks : list Z) (k : Z) : In k pks -> k < next_pk pks.
Proof.
  unfold next_pk. induction pks as [|a pks IH]; intros Hin; [destruct Hin|].
  cbn [fold_right]. destruct Hin as [-> | Hin]; [lia|].
  specialize (IH Hin). lia.
Qed.

Lemma next_pk_fresh (pks : list Z) : ~ In (next_pk pks) pks.
Proof. intros H. apply next_pk_above in H. lia. Qed.

Lemma map_replace_absent {R} (pk : R -> Z) (k : Z) (r' : R) (l : list R) :
  ~ In k (List.map pk l) ->
  List.map (fun x => if pk x =? k then r' else x) l = l.
Proof.
  induction l as [|a l IH]; intros H; [reflexivity|]. cbn in *.
  destruct (pk a =? k) eqn:E;
    [apply Z.eqb_eq in E; exfalso; apply H; left; exact E|].
  rewrite IH; [reflexivity|]. intros Hin; apply H; right; exact Hin.
Qed.

Lemma map_replace_keys {R} (pk : R -> Z) (r' : R) (l : list R) :
  List.map pk (List.map (fun x => if pk x =? pk r' then r' else x) l)
  = List.map pk l.
Proof.
  induction l as [|a l IH]; [reflexivity|]. cbn. rewrite IH.
  destruct (pk a =? pk r') eqn:E; [apply Z.eqb_eq in E; rewrite E|]; reflexivity.
Qed.

(** Replacing the row of one key keeps a column free of repetitions when the
    new value of the column is taken by no row of another key. *)
Lemma NoDup_map_replace {R} (pk : R -> Z) (f : R -> str) (r' : R)
  (l : list R) :
  NoDup (List.map pk l) -> NoDup (List.map f l) ->
  (forall v, In v l -> pk v <> pk r' -> f v <> f r') ->
  NoDup (List.map f (List.map (fun x => if pk x =? pk r' then r' else x) l)).
Proof.
  induction l as [|a l IH]; intros Hpk Hf Hfree; [constructor|].
  cbn [List.map] in *.
  inversion Hpk as [|k ks Hka Hpk']; subst.
  inversion Hf as [|k ks Hfa Hf']; subst.
  destruct (pk a =? pk r') eqn:E.
  - apply Z.eqb_eq in E. rewrite E in Hka.
    rewrite (map_replace_absent pk (pk r') r' l Hka).
    constructor; [|exact Hf'].
    rewrite in_map_iff. intros (v & Hv & Hin).
    apply (Hfree v (or_intror Hin)); [|exact Hv].
    intros Ek. apply Hka. rewrite <- Ek. apply in_map; exact Hin.
  - apply Z.eqb_neq in E. constructor.
    + rewrite in_map_iff. intros (v & Hv & Hin).
      apply in_map_iff in Hin. destruct Hin as (x & Hx & Hin).
      destruct (pk x =? pk r'); subst v.
      * apply (Hfree a (or_introl eq_refl) E). symmetry; exact Hv.
      * apply Hfa. rewrite <- Hv. apply in_map; exact Hin.
    + apply IH; [exact Hpk' | exact Hf' |].
      intros v Hv. apply Hfree; right; exact Hv.
Qed.

Lemma User_get_or_create_keeps_unique (username email : str) (w : World) :
  users_unique w -> users_unique (snd (User_get_or_create username email w)).
Proof.
  intros (Hpk & Hname & Hmail).
  pose proof (User_get_or_create_cases username email w) as C.
  destruct (objects_get _ (users w)) as [e|u].
  - destruct e; try (rewrite C; repeat split; assumption).
    destruct (existsb _ (users w)) eqn:X; [rewrite C; repeat split; assumption|].
    cbv zeta in C. rewrite C. cbn [snd]. unfold users_unique.
    cbn [users set_users]. rewrite !map_app. cbn [List.map User.pk
      User.username User.email].
    pose proof (proj1 (no_conflict_iff _ _ _) X) as Hfree.
    repeat split; apply NoDup_snoc; try assumption.
    + apply next_pk_fresh.
    + rewrite in_map_iff. intros (x & Hx & Hin).
      apply (proj1 (Hfree x Hin)); exact Hx.
    + rewrite in_map_iff. intros (x & Hx & Hin).
      apply (proj2 (Hfree x Hin)); exact Hx.
  - rewrite C. repeat split; assumption.
Qed.

Lemma User_save_keeps_unique (u : User.t) (w : World) :
  users_unique w -> users_unique (snd (User_save u w)).
Proof.
  intros (Hpk & Hname & Hmail). unfold User_save.
  destruct (existsb _ (users w)) eqn:X; [repeat split; assumption|].
  cbn [snd]. unfold users_unique. cbn [users set_users].
  assert (forall v, In v (users w) -> User.pk v <> User.pk u ->
            User.username v <> User.username u
            /\ User.email v <> User.email u) as Hfree.
  { intros v Hv Hk.
    assert (negb (User.pk v =? User.pk u)
            && (str_eqb (User.username v) (User.username u)
                || str_eqb (User.email v) (User.email u)) = false) as Hv'.
    { destruct (negb _ && _) eqn:B; [|reflexivity].
      rewrite <- X. symmetry. apply existsb_exists. exists v; auto. }
    apply Z.eqb_neq in Hk. rewrite Hk in Hv'. cbn in Hv'.
    apply orb_false_iff in Hv'. rewrite !str_eqb_neq in Hv'. exact Hv'. }
  split; [rewrite (map_replace_keys User.pk u); exact Hpk|].
  split; apply NoDup_map_replace; try assumption;
    intros v Hv Hk; [apply (proj1 (Hfree v Hv Hk)) | apply (proj2 (Hfree v Hv Hk))].
Qed.

(** X19. Every store the authentication flow reaches has unique users: the
    assumption of the token exchange on usernames holds of all of them. *)
Lemma reachable_users_unique
  (unicode_alnum : N -> bool) (make_token : Z -> User.t -> str)
  (check_token : Z -> User.t -> str -> bool) (access_token : Z -> User.t -> str)
  (w : World) :
  reachable unicode_alnum make_token check_token access_token w ->
  users_unique w.
Proof.
  induction 1 as [w Hempty | w rq Hreach IH].
  - unfold users_unique. rewrite Hempty. cbn. repeat split; constructor.
  - destruct rq as [env d | env d | method caller d]; cbn [serve].
    + rewrite APISignup_post_step.
      destruct (SignUpSerializer_is_valid unicode_alnum d) as [e|v]; [exact IH|].
      pose proof (User_get_or_create_keeps_unique (fst v) (snd v) w IH) as Hg.
      destruct (User_get_or_create (fst v) (snd v) w) as [[e|[user c]] w'];
        [exact Hg|].
      cbv zeta. destruct (smtp_accepts env _); exact Hg.
    + rewrite APIGetToken_post_frame. exact IH.
    + destruct (find_user w caller) as [request_user|]; [|exact IH].
      destruct method.
      * unfold get_current_user_info, bind, ret.
        destruct (get_object_or_404 _ (users w)); exact IH.
      * rewrite patch_me_step.
        destruct (UserSerializer_is_valid_partial unicode_alnum d) as [e|v];
          [exact IH|].
        pose proof (User_save_keeps_unique (patched request_user v) w IH) as Hs.
        destruct (User_save (patched request_user v) w) as [[e|[]] w'];
          exact Hs.
Qed.

(* ------------------------------------------------------------------------- *)
(** ** Signup: what it writes and what it sends *)

(** X1. Signup leaves the catalogue alone; it keeps every User row and adds
    at most one, which then has the submitted username and email, the role
    user and an empty bio; when it raises, no message was sent, and when it
    answers, exactly one was, to the submitted address. *)
Theorem signup_outcomes
  (unicode_alnum : N -> bool) (make_token : Z -> User.t -> str)
  (env : Env) (d : QueryDict) (w : World) :
  let run := APISignup_post unicode_alnum make_token env d w in
  catalogue (snd run) = catalogue w
  /\ (users (snd run) = users w
      \/ exists username email,
          get d (py "username") = Some username
          /\ get d (py "email") = Some email
          /\ users (snd run)
             = users w ++ [User.mk (next_pk (List.map User.pk (users w)))
                                   username email RegularUser []])
  /\ match fst run with
     | inl _ => outbox (snd run) = outbox w
     | inr r =>
         exists username email code,
           get d (py "username") = Some username
           /\ get d (py "email") = Some email
           /\ r = {| data := [(py "username", username); (py "email", email)];
                     status := HTTP_200_OK |}
           /\ outbox (snd run)
              = outbox w ++ [confirmation_email username email code]
           /\ to (confirmation_email username email code) = [email]
     end.
Proof.
  intros run. subst run. rewrite APISignup_post_step.
  destruct (SignUpSerializer_is_valid unicode_alnum d) as [e|v] eqn:V.
  { cbn. auto. }
  destruct (SignUpSerializer_valid_inv _ _ _ V) as (Hu & He & _).
  destruct (User_get_or_create (fst v) (snd v) w) as [[e|[user c]] w'] eqn:G.
  { apply User_get_or_create_raises in G. destruct G as (-> & _). cbn. auto. }
  destruct (User_get_or_create_ok _ _ _ _ _ _ G) as (Hget & Hout & Hcases).
  destruct (objects_get_found _ _ _ Hget) as (_ & Hid).
  apply same_identity_iff in Hid. destruct Hid as (Hname & Hmail).
  assert (catalogue w' = catalogue w
          /\ (users w' = users w
              \/ users w'
                 = users w ++ [User.mk (next_pk (List.map User.pk (users w)))
                                       (fst v) (snd v) RegularUser []]))
    as (Hcat & Hus).
  { destruct Hcases as [(_ & ->) | (_ & _ & -> & ->)]; split; auto. }
  cbv zeta. destruct (smtp_accepts env _); cbn [fst snd].
  - split; [exact Hcat|]. split.
    + cbn [users set_outbox]. destruct Hus as [Hus | Hus]; [left; exact Hus|].
      right. exists (fst v), (snd v). auto.
    + exists (fst v), (snd v), (make_token (now env) user).
      cbn [outbox set_outbox]. rewrite Hout, Hname, Hmail.
      repeat split; assumption.
  - split; [exact Hcat|]. split; [|exact Hout].
    destruct Hus as [Hus | Hus]; [left; exact Hus|].
    right. exists (fst v), (snd v). auto.
Qed.

(** X2. A valid signup whose username or email is already taken, but not by
    one row with both, raises IntegrityError: nothing is written and no
    message is sent. *)
Theorem signup_conflict_raises
  (unicode_alnum : N -> bool) (make_token : Z -> User.t -> str)
  (env : Env) (d : QueryDict) (w : World) (username email : str) :
  get d (py "username") = Some username ->
  get d (py "email") = Some email ->
  ~ username_rejected unicode_alnum username ->
  (forall x, In x (users w) ->
             ~ (User.username x = username /\ User.email x = email)) ->
  (exists x, In x (users w)
             /\ (User.username x = username \/ User.email x = email)) ->
  APISignup_post unicode_alnum make_token env d w = (inl IntegrityError, w).
Proof.
  intros Hu He Hok Hnone (x & Hx & Htaken).
  rewrite APISignup_post_step, (SignUpSerializer_valid _ _ _ _ Hu He Hok).
  cbn [fst snd].
  pose proof (User_get_or_create_cases username email w) as C.
  assert (objects_get (same_identity username email) (users w)
          = inl DoesNotExist) as G.
  { apply objects_get_none. intros r Hr.
    destruct (same_identity username email r) eqn:S; [|reflexivity].
    apply same_identity_iff in S. destruct (Hnone r Hr); exact S. }
  rewrite G in C.
  assert (existsb (fun u => str_eqb (User.username u) username
                            || str_eqb (User.email u) email) (users w) = true)
    as X.
  { apply existsb_exists. exists x. split; [exact Hx|].
    apply orb_true_iff. rewrite !str_eqb_eq. exact Htaken. }
  rewrite X in C. rewrite C. reflexivity.
Qed.

(* ------------------------------------------------------------------------- *)
(** ** From signup to the token *)


(* ------------------------------------------------------------------------- *)
(** ** Roles under the authentication flow *)

Lemma signup_users_grow
  (unicode_alnum : N -> bool) (make_token : Z -> User.t -> str)
  (env : Env) (d : QueryDict) (w : World) :
  users (snd (APISignup_post unicode_alnum make_token env d w)) = users w
  \/ exists username email,
      users (snd (APISignup_post unicode_alnum make_token env d w))
      = users w ++ [User.mk (next_pk (List.map User.pk (users w)))
                            username email RegularUser []].
Proof.
  rewrite signup_users.
  destruct (SignUpSerializer_is_valid unicode_alnum d) as [e|v]; [left; auto|].
  pose proof (User_get_or_create_cases (fst v) (snd v) w) as C.
  destruct (objects_get _ (users w)) as [e|u]; [|rewrite C; left; auto].
  destruct e; try (rewrite C; left; reflexivity).
  destruct (existsb _ (users w)); [rewrite C; left; reflexivity|].
  cbv zeta in C. rewrite C. right. exists (fst v), (snd v). reflexivity.
Qed.

Lemma Forall_map_replace {R} (P : R -> Prop) (pk : R -> Z) (k : Z) (r' : R)
  (l : list R) :
  Forall P l -> ((exists x, In x l /\ pk x = k) -> P r') ->
  Forall P (List.map (fun x => if pk x =? k then r' else x) l).
Proof.
  intros Hl Hr. apply Forall_forall. intros y Hy.
  apply in_map_iff in Hy. destruct Hy as (x & <- & Hx).
  destruct (pk x =? k) eqn:E.
  - apply Hr. exists x. split; [exact Hx | apply Z.eqb_eq; exact E].
  - rewrite Forall_forall in Hl. apply Hl; exact Hx.
Qed.

Lemma find_some_key {R} (pk : R -> Z) (k : Z) (l : list R) (r : R) :
  find (fun x => pk x =? k) l = Some r -> In r l /\ pk r = k.
Proof.
  intros H. apply find_some in H. destruct H as (Hin & E).
  split; [exact Hin | apply Z.eqb_eq; exact E].
Qed.

Lemma serve_keeps_roles_step
  (unicode_alnum : N -> bool) (make_token : Z -> User.t -> str)
  (check_token : Z -> User.t -> str -> bool) (access_token : Z -> User.t -> str)
  (rq : AuthRequest) (w : World) :
  Forall (fun u' => User.role u' = RegularUser
                    \/ exists u, In u (users w) /\ User.pk u = User.pk u'
                                 /\ User.role u = User.role u')
         (users (serve unicode_alnum make_token check_token access_token rq w)).
Proof.
  assert (Forall (fun u' => User.role u' = RegularUser
                            \/ exists u, In u (users w)
                                         /\ User.pk u = User.pk u'
                                         /\ User.role u = User.role u')
                 (users w)) as Hsame.
  { apply Forall_forall. intros u Hu. right. exists u. auto. }
  destruct rq as [env d | env d | method caller d]; cbn [serve].
  - destruct (signup_users_grow unicode_alnum make_token env d w)
      as [-> | (u & e & ->)]; [exact Hsame|].
    apply Forall_app. split; [exact Hsame|].
    constructor; [left; reflexivity | constructor].
  - rewrite APIGetToken_post_frame. exact Hsame.
  - destruct (find_user w caller) as [request_user|] eqn:Hfind; [|exact Hsame].
    apply find_some_key in Hfind. destruct Hfind as (Hin & Hpk).
    destruct method.
    + unfold get_current_user_info, bind, ret.
      destruct (get_object_or_404 _ (users w)); exact Hsame.
    + rewrite patch_me_step.
      destruct (UserSerializer_is_valid_partial unicode_alnum d) as [e|v];
        [exact Hsame|].
      unfold User_save. destruct (existsb _ (users w)); [exact Hsame|].
      cbn [snd users set_users].
      apply Forall_map_replace; [exact Hsame|].
      intros _. right. exists request_user. auto.
Qed.

(** X5. No request to signup, to the token exchange or to the caller's own
    record raises anyone's privileges: every user of the store after the
    request either has the role user, or has the key and the role of a user
    of the store before it. *)
Theorem serve_keeps_roles
  (unicode_alnum : N -> bool) (make_token : Z -> User.t -> str)
  (check_token : Z -> User.t -> str -> bool) (access_token : Z -> User.t -> str)
  (rq : AuthRequest) (w : World) :
  Forall (fun u' => User.role u' = RegularUser
                    \/ exists u, In u (users w) /\ User.pk u = User.pk u'
                                 /\ User.role u = User.role u')
         (users (serve unicode_alnum make_token check_token access_token rq w)).
Proof. apply serve_keeps_roles_step. Qed.

(** X6. Starting from a store without users, no sequence of requests to
    these three views ever yields a user whose role is not user. *)
Theorem reachable_roles_regular
  (unicode_alnum : N -> bool) (make_token : Z -> User.t -> str)
  (check_token : Z -> User.t -> str -> bool) (access_token : Z -> User.t -> str)
  (w : World) :
  reachable unicode_alnum make_token check_token access_token w ->
  Forall (fun u => User.role u = RegularUser) (users w).
Proof.
  induction 1 as [w Hempty | w rq Hreach IH].
  - rewrite Hempty. constructor.
  - pose proof (serve_keeps_roles_step unicode_alnum make_token check_token
                  access_token rq w) as Hstep.
    rewrite Forall_forall in *. intros u' Hu'.
    destruct (Hstep u' Hu') as [H | (u & Hu & _ & Hrole)]; [exact H|].
    rewrite <- Hrole. apply IH; exact Hu.
Qed.

(* ------------------------------------------------------------------------- *)
(** ** Reading the caller's own record *)

Lemma get_me_step (unicode_alnum : N -> bool) (request_user : User.t)
  (d : QueryDict) (w : World) :
  get_current_user_info unicode_alnum GET request_user d w
  = match get_object_or_404
            (fun u => str_eqb (User.username u) (User.username request_user))
            (users w)
    with
    | inl e => (inl e, w)
    | inr user =>
        (inr {| data := UserSerializer_data user; status := HTTP_200_OK |}, w)
    end.
Proof.
  unfold get_current_user_info, bind, ret.
  destruct (get_object_or_404 _ (users w)); reflexivity.
Qed.

(** X7. GET on the caller's own record never writes and ignores the request
    body; over unique usernames it renders the stored row of the caller, and
    when no row has the caller's username any more it raises Http404. *)
Theorem get_me_own_record
  (unicode_alnum : N -> bool) (request_user : User.t) (d : QueryDict)
  (w : World) :
  let run := get_current_user_info unicode_alnum GET request_user d w in
  snd run = w
  /\ run = get_current_user_info unicode_alnum GET request_user [] w
  /\ (NoDup (List.map User.username (users w)) ->
      In request_user (users w) ->
      fst run = inr {| data := UserSerializer_data request_user;
                       status := HTTP_200_OK |})
  /\ ((forall u, In u (users w) ->
                 User.username u <> User.username request_user) ->
      fst run = inl Http404).
Proof.
  intros run. subst run. rewrite !get_me_step. unfold get_object_or_404.
  split; [|split; [reflexivity|split]].
  - destruct (objects_get _ (users w)) as [[]|u]; reflexivity.
  - intros Hnd Hin.
    rewrite (objects_get_unique User.username _ request_user Hnd Hin).
    reflexivity.
  - intros Hnone.
    assert (objects_get
              (fun u => str_eqb (User.username u) (User.username request_user))
              (users w) = inl DoesNotExist) as ->; [|reflexivity].
    apply objects_get_none. intros r Hr. apply str_eqb_neq. auto.
Qed.

(** X8. What PATCH answers is what GET then reads: after a successful PATCH
    over a store with unique users, the stored row of the caller, asked for
    with GET, is rendered as the very response PATCH gave. *)
Theorem patch_then_get
  (unicode_alnum : N -> bool) (request_user : User.t) (d d' : QueryDict)
  (w w' : World) (r : Response) :
  users_unique w ->
  find_user w (User.pk request_user) = Some request_user ->
  get_current_user_info unicode_alnum PATCH request_user d w = (inr r, w') ->
  exists u',
    find_user w' (User.pk request_user) = Some u'
    /\ get_current_user_info unicode_alnum GET u' d' w' = (inr r, w').
Proof.
  intros Huniq Hfind Hrun. rewrite patch_me_step in Hrun.
  destruct (UserSerializer_is_valid_partial unicode_alnum d) as [e|v];
    [discriminate|].
  pose proof (User_save_keeps_unique (patched request_user v) w Huniq) as Huniq'.
  destruct (User_save (patched request_user v) w) as [[e|[]] w0] eqn:S;
    [discriminate|].
  inversion Hrun; subst r w0. clear Hrun. cbn [snd] in Huniq'.
  unfold User_save in S. destruct (existsb _ (users w)); [discriminate|].
  inversion S as [Hw']. clear S. subst w'.
  exists (patched request_user v).
  match goal with |- find_user ?w1 _ = _ /\ _ => set (w' := w1) in * end.
  assert (find_user w' (User.pk request_user) = Some (patched request_user v))
    as Hfind'.
  { subst w'. unfold find_user. cbn [users set_users].
    change (User.pk (patched request_user v)) with (User.pk request_user).
    rewrite (find_map_replace User.pk (User.pk request_user)); [|reflexivity].
    rewrite Z.eqb_refl. unfold find_user in Hfind. rewrite Hfind. reflexivity. }
  split; [exact Hfind'|].
  rewrite get_me_step. unfold get_object_or_404.
  apply find_some_key in Hfind'. destruct Hfind' as (Hin & _).
  rewrite (objects_get_unique User.username _ _ (proj1 (proj2 Huniq')) Hin).
  reflexivity.
Qed.

(* ------------------------------------------------------------------------- *)
(** ** Creating and updating titles *)

Lemma find_app_key {R} (pk : R -> Z) (k : Z) (l l' : list R) (x : R) :
  find (fun r => pk r =? k) l = Some x ->
  find (fun r => pk r =? k) (l ++ l') = Some x.
Proof.
  induction l as [|a l IH]; cbn; [discriminate|].
  destruct (pk a =? k); [auto | exact IH].
Qed.

Lemma NoDup_map_filter {R K} (key : R -> K) (f : R -> bool) (l : list R) :
  NoDup (List.map key l) -> NoDup (List.map key (filter f l)).
Proof.
  induction l as [|a l IH]; intros H; [constructor|].
  cbn in *. inversion H as [|k ks Ha Hl]; subst.
  destruct (f a); [|apply IH; exact Hl].
  cbn. constructor; [|apply IH; exact Hl].
  intros Hin. apply Ha. apply in_map_iff in Hin.
  destruct Hin as (x & Hx & Hf). apply filter_In in Hf.
  rewrite <- Hx. apply in_map; tauto.
Qed.

(** X9. Creating a title from a form body: without a category of the
    submitted slug the view raises Http404 and stores nothing; with one, it
    appends exactly one row, under a key above all the keys in use, with the
    validated name and year, that category and the genres of the submitted
    slugs, and every title stored before is still found under its key. *)
Theorem title_create_appends (d : QueryDict) (v : TitleFields) (w : World) :
  let s := {| instance := None; validated_data := v |} in
  ((forall c, In c (categories w) ->
              get d (py "category") <> Some (Category.slug c)) ->
   perform_create (Form d) s w = (inl Http404, w))
  /\ forall name year c,
      v_name v = Some name -> v_year v = Some year ->
      NoDup (List.map Category.slug (categories w)) ->
      In c (categories w) ->
      get d (py "category") = Some (Category.slug c) ->
      exists t',
        perform_create (Form d) s w
        = (inr tt, set_titles (titles w ++ [t']) w)
        /\ (forall t, In t (titles w) -> Title.pk t < Title.pk t')
        /\ Title.name t' = name /\ Title.year t' = year
        /\ Title.category t' = Some (Category.pk c)
        /\ Title.genre t' = List.map Genre.pk (submitted_genres d w)
        /\ forall k x, find_title w k = Some x ->
                       find_title (set_titles (titles w ++ [t']) w) k = Some x.
Proof.
  intros s. split; [apply (perform_create_no_category (Form d))|].
  intros name year c Hname Hyear Hnd Hin Hcat.
  rewrite perform_create_step, (category_resolved (Form d) w c Hnd Hin Hcat).
  cbn [data_getlist].
  unfold TitleSerializer_save. cbn [instance validated_data s].
  rewrite Hname, Hyear.
  eexists. split; [reflexivity|].
  split.
  { intros t Ht. cbn [Title.pk]. apply next_pk_above. apply in_map; exact Ht. }
  repeat split.
  intros k x Hfind. unfold find_title in *. cbn [titles set_titles].
  apply find_app_key; exact Hfind.
Qed.

(** X10. The genres an update from a form body stores are clean: over a
    Genre table without repeated keys the stored list has no repetition,
    however often a slug was submitted; it is never longer than the table;
    and slugs that name no genre are dropped without an error, a request
    naming only such slugs leaving the title without genres. *)
Theorem title_update_genres_clean
  (d : QueryDict) (t : Title.t) (v : TitleFields) (w : World) (c : Category.t) :
  find_title w (Title.pk t) = Some t ->
  NoDup (List.map Category.slug (categories w)) ->
  In c (categories w) ->
  get d (py "category") = Some (Category.slug c) ->
  NoDup (List.map Genre.pk (genres w)) ->
  exists t' w',
    perform_update (Form d) {| instance := Some t; validated_data := v |} w
    = (inr tt, w')
    /\ find_title w' (Title.pk t) = Some t'
    /\ NoDup (Title.genre t')
    /\ (List.length (Title.genre t') <= List.length (genres w))%nat
    /\ ((forall g, In g (genres w) ->
                   ~ In (Genre.slug g) (getlist d (py "genre"))) ->
        Title.genre t' = []).
Proof.
  intros Hfind Hnd Hin Hcat Hg.
  rewrite (perform_update_ok d t v w c Hnd Hin Hcat).
  eexists (updated_title t v c (submitted_genres d w)), _.
  split; [reflexivity|]. split.
  { unfold find_title. cbn [titles set_titles].
    rewrite (find_map_replace Title.pk (Title.pk t)); [|reflexivity].
    rewrite Z.eqb_refl. unfold find_title in Hfind. rewrite Hfind.
    reflexivity. }
  cbn [Title.genre updated_title]. unfold submitted_genres.
  split; [apply NoDup_map_filter; exact Hg|].
  split.
  { rewrite length_map. apply filter_length_le. }
  intros Hnone. rewrite filter_none; [reflexivity|].
  intros g Hgin. destruct (mem _ _) eqn:M; [|reflexivity].
  apply mem_In in M. destruct (Hnone g Hgin M).
Qed.

(** X20. A JSON body never gets a title written: creating and updating
    leave the store as it is; without a category whose slug is the
    'category' value they raise Http404, and with one (slugs being unique)
    they raise AttributeError, for a dict has no [getlist]. *)
Theorem title_write_json_body (d : JsonDict) (s : TitleSerializer) (w : World) :
  snd (perform_create (Json d) s w) = w
  /\ perform_update (Json d) s w = perform_create (Json d) s w
  /\ ((forall c, In c (categories w) ->
                 json_get d (py "category") <> Some (Category.slug c)) ->
      perform_create (Json d) s w = (inl Http404, w))
  /\ forall c,
      NoDup (List.map Category.slug (categories w)) ->
      In c (categories w) ->
      json_get d (py "category") = Some (Category.slug c) ->
      perform_create (Json d) s w = (inl AttributeError, w).
Proof.
  split.
  { rewrite perform_create_step. cbn [data_getlist].
    destruct (get_object_or_404 _ (categories w)); reflexivity. }
  split; [reflexivity|].
  split; [apply (perform_create_no_category (Json d))|].
  intros c Hnd Hin Hcat. apply (perform_create_json d s w c Hnd Hin Hcat).
Qed.

Lemma reviews__score_key (rs : list Review.t) (a b : Title.t) :
  Title.pk a = Title.pk b -> reviews__score rs a = reviews__score rs b.
Proof. intros E. unfold reviews__score. rewrite E. reflexivity. Qed.

Lemma TitleViewSet_list_In (w : World) (d : TitleData) :
  In d (TitleViewSet_list w)
  <-> exists t, In t (titles w)
                /\ d = {| title := t;
                          rating := Avg (reviews__score (reviews w) t) |}.
Proof.
  unfold TitleViewSet_list, TitleViewSet_queryset.
  rewrite in_map_iff. split.
  - intros (row & <- & Hrow). apply (proj1 (order_by_name_In _ _)) in Hrow.
    apply in_map_iff in Hrow. destruct Hrow as (t & <- & Ht).
    exists t. split; [exact Ht | reflexivity].
  - intros (t & Ht & ->).
    exists (t, Avg (reviews__score (reviews w) t)). split; [reflexivity|].
    apply order_by_name_In.
    apply (in_map (fun t => (t, Avg (reviews__score (reviews w) t)))).
    exact Ht.
Qed.

(** X11. An update from a form body writes one title and nothing else: the
    other tables and the outbox are as before, the keys of the Title table
    are the same in the same order, every other title is found unchanged,
    and the updated title keeps each of name, year and description that was
    not submitted. *)
Theorem title_update_frame
  (d : QueryDict) (t : Title.t) (v : TitleFields) (w : World) (c : Category.t) :
  find_title w (Title.pk t) = Some t ->
  NoDup (List.map Category.slug (categories w)) ->
  In c (categories w) ->
  get d (py "category") = Some (Category.slug c) ->
  exists t' w',
    perform_update (Form d) {| instance := Some t; validated_data := v |} w
    = (inr tt, w')
    /\ (users w', categories w', genres w', reviews w', outbox w')
       = (users w, categories w, genres w, reviews w, outbox w)
    /\ List.map Title.pk (titles w') = List.map Title.pk (titles w)
    /\ (forall k, k <> Title.pk t -> find_title w' k = find_title w k)
    /\ find_title w' (Title.pk t) = Some t'
    /\ Title.name t' = or_else (v_name v) (Title.name t)
    /\ Title.year t' = or_else (v_year v) (Title.year t)
    /\ Title.description t' = or_else (v_description v) (Title.description t).
Proof.
  intros Hfind Hnd Hin Hcat.
  rewrite (perform_update_ok d t v w c Hnd Hin Hcat).
  set (t' := updated_title t v c (submitted_genres d w)).
  eexists t', _. split; [reflexivity|]. cbn [users categories genres reviews
    outbox titles set_titles].
  assert (forall k,
            find_title
              (set_titles (List.map (fun x => if Title.pk x =? Title.pk t
                                              then t' else x) (titles w)) w) k
            = if k =? Title.pk t then Some t' else find_title w k) as Hf.
  { intros k. unfold find_title. cbn [titles set_titles].
    rewrite (find_map_replace Title.pk (Title.pk t)); [|reflexivity].
    unfold find_title in Hfind. rewrite Hfind. reflexivity. }
  split; [reflexivity|]. split.
  { apply (map_replace_keys Title.pk t'). }
  split.
  { intros k Hk. pose proof (Hf k) as H0. apply Z.eqb_neq in Hk.
    rewrite Hk in H0. exact H0. }
  split.
  { pose proof (Hf (Title.pk t)) as H0. rewrite Z.eqb_refl in H0. exact H0. }
  repeat split.
Qed.

(** X12. Updating a title from a form body changes no rating: every rating
    the titles endpoint lists after the update is the rating it listed
    before for the title of the same key. *)
Theorem title_update_keeps_ratings
  (d : QueryDict) (t : Title.t) (v : TitleFields) (w : World) (c : Category.t) :
  NoDup (List.map Category.slug (categories w)) ->
  In c (categories w) ->
  get d (py "category") = Some (Category.slug c) ->
  exists w',
    perform_update (Form d) {| instance := Some t; validated_data := v |} w
    = (inr tt, w')
    /\ Forall (fun d' => exists d0, In d0 (TitleViewSet_list w)
                                    /\ Title.pk (title d0) = Title.pk (title d')
                                    /\ rating d0 = rating d')
              (TitleViewSet_list w').
Proof.
  intros Hnd Hin Hcat.
  rewrite (perform_update_ok d t v w c Hnd Hin Hcat).
  set (t' := updated_title t v c (submitted_genres d w)).
  eexists. split; [reflexivity|].
  apply Forall_forall. intros d' Hd'.
  apply TitleViewSet_list_In in Hd'. destruct Hd' as (x' & Hx' & ->).
  cbn [titles reviews set_titles] in *.
  apply in_map_iff in Hx'. destruct Hx' as (x & Hx' & Hx).
  exists {| title := x; rating := Avg (reviews__score (reviews w) x) |}.
  split; [apply TitleViewSet_list_In; eauto|]. cbn [title rating].
  assert (Title.pk x = Title.pk x') as E.
  { destruct (Title.pk x =? Title.pk t) eqn:Ek; subst x'; [|reflexivity].
    apply Z.eqb_eq in Ek. exact Ek. }
  split; [exact E|].
  rewrite (reviews__score_key (reviews w) x x' E). reflexivity.
Qed.

(* ------------------------------------------------------------------------- *)
(** ** The list of titles: order and bounds *)

Lemma str_leb_total (a b : str) : str_leb a b = false -> str_leb b a = true.
Proof.
  revert b; induction a as [|x a IH]; intros [|y b]; cbn; try discriminate;
    try reflexivity.
  destruct (x <? y)%N eqn:Exy; [discriminate|].
  destruct (y <? x)%N eqn:Eyx; [reflexivity|]. apply IH.
Qed.

Lemma HdRel_insert_by_name (a : Title.t) (row : Title.t * option Q)
  (rows : list (Title.t * option Q)) :
  name_le a (fst row) ->
  HdRel name_le a (List.map fst rows) ->
  HdRel name_le a (List.map fst (insert_by_name row rows)).
Proof.
  intros Ha Hrows. destruct rows as [|r rows]; cbn [insert_by_name].
  - constructor; exact Ha.
  - destruct (str_leb _ _); cbn; constructor; [exact Ha|].
    inversion Hrows; assumption.
Qed.

Lemma insert_by_name_sorted (row : Title.t * option Q)
  (rows : list (Title.t * option Q)) :
  Sorted name_le (List.map fst rows) ->
  Sorted name_le (List.map fst (insert_by_name row rows)).
Proof.
  induction rows as [|r rows IH]; intros Hs; cbn [insert_by_name].
  - cbn. constructor; constructor.
  - destruct (str_leb (Title.name (fst row)) (Title.name (fst r))) eqn:E.
    + cbn. constructor; [exact Hs|]. constructor. exact E.
    + cbn [List.map] in *. inversion Hs as [|x l Hl Hhd]; subst.
      constructor; [apply IH; exact Hl|].
      apply HdRel_insert_by_name; [|exact Hhd].
      apply str_leb_total; exact E.
Qed.

Lemma insert_by_name_perm (row : Title.t * option Q)
  (rows : list (Title.t * option Q)) :
  Permutation (insert_by_name row rows) (row :: rows).
Proof.
  induction rows as [|r rows IH]; cbn [insert_by_name]; [reflexivity|].
  destruct (str_leb _ _); [reflexivity|].
  rewrite IH. apply perm_swap.
Qed.

Lemma order_by_name_perm (rows : list (Title.t * option Q)) :
  Permutation (order_by_name rows) rows.
Proof.
  unfold order_by_name. induction rows as [|r rows IH]; cbn [fold_right];
    [reflexivity|].
  rewrite insert_by_name_perm. constructor. exact IH.
Qed.

(** X13. The titles endpoint lists every title of the store exactly once, in
    ascending order of name. *)
Theorem title_list_sorted (w : World) :
  Sorted name_le (List.map title (TitleViewSet_list w))
  /\ Permutation (List.map title (TitleViewSet_list w)) (titles w).
Proof.
  unfold TitleViewSet_list, TitleViewSet_queryset.
  rewrite map_map. cbn [title TitleSerializer_data].
  change (fun x : Title.t * option Q => fst x) with (@fst Title.t (option Q)).
  split.
  - unfold order_by_name.
    induction (List.map _ (titles w)) as [|r rows IH]; cbn [fold_right].
    + constructor.
    + apply insert_by_name_sorted; exact IH.
  - rewrite order_by_name_perm, map_map. cbn [fst].
    rewrite map_id. reflexivity.
Qed.




(* ------------------------------------------------------------------------- *)
(** ** Reviews and comments *)

Lemma objects_get_unique_key {R} (key : R -> Z) (table : list R) (r : R) :
  NoDup (List.map key table) -> In r table ->
  objects_get (fun x => key x =? key r) table = inr r.
Proof.
  unfold objects_get. induction table as [|a l IH]; intros Hnd Hin;
    [destruct Hin|].
  cbn [List.map] in Hnd. inversion Hnd as [|k ks Hnotin Hnd']; subst.
  cbn [filter]. destruct Hin as [-> | Hin].
  - rewrite Z.eqb_refl. rewrite filter_none; [reflexivity|].
    intros x Hx. apply Z.eqb_neq. intros E. apply Hnotin.
    rewrite <- E. apply in_map; exact Hx.
  - destruct (key a =? key r) eqn:E.
    + apply Z.eqb_eq in E. exfalso. apply Hnotin. rewrite E.
      apply in_map; exact Hin.
    + apply IH; assumption.
Qed.

Lemma by_id_found {R} (pk : R -> Z) (id : option Z) (table : list R) (r : R) :
  NoDup (List.map pk table) -> In r table -> id = Some (pk r) ->
  in_key_range (pk r) = true ->
  get_by_id_or_404 pk id table = inr r.
Proof.
  intros Hnd Hin -> Hrange. unfold get_by_id_or_404, get_object_or_404.
  rewrite Hrange, (objects_get_unique_key pk table r Hnd Hin). reflexivity.
Qed.

Lemma by_id_missing {R} (pk : R -> Z) (id : option Z) (table : list R) :
  (forall i, id = Some i -> in_key_range i = true) ->
  (forall r, In r table -> id <> Some (pk r)) ->
  get_by_id_or_404 pk id table = inl Http404.
Proof.
  intros Hrange Hnone. unfold get_by_id_or_404.
  destruct id as [i|]; [|reflexivity].
  rewrite (Hrange i eq_refl). unfold get_object_or_404.
  assert (objects_get (fun r => pk r =? i) table = inl DoesNotExist) as ->;
    [|reflexivity].
  apply objects_get_none. intros r Hr.
  apply Z.eqb_neq. intros E. apply (Hnone r Hr). rewrite E. reflexivity.
Qed.

Lemma by_id_overflow {R} (pk : R -> Z) (id : option Z) (table : list R) (i : Z) :
  id = Some i -> in_key_range i = false ->
  get_by_id_or_404 pk id table = inl OverflowError.
Proof.
  intros -> Hrange. unfold get_by_id_or_404. rewrite Hrange. reflexivity.
Qed.

Lemma ReviewViewSet_get_queryset_step (kwargs : Kwargs) (w : World) :
  ReviewViewSet_get_queryset kwargs w
  = match get_by_id_or_404 Title.pk (kwargs_get kwargs (py "title_id"))
                           (titles w)
    with
    | inl e => (inl e, w)
    | inr title =>
        (inr (filter (fun r => Review.title_id r =? Title.pk title) (reviews w)),
         w)
    end.
Proof.
  unfold ReviewViewSet_get_queryset, bind.
  destruct (get_by_id_or_404 _ _ (titles w)); reflexivity.
Qed.

Lemma ReviewViewSet_perform_create_step (kwargs : Kwargs)
  (request_user : User.t) (v : ReviewFields) (w : World) :
  ReviewViewSet_perform_create kwargs request_user v w
  = match get_by_id_or_404 Title.pk (kwargs_get kwargs (py "title_id"))
                           (titles w)
    with
    | inl e => (inl e, w)
    | inr title =>
        match ReviewSerializer_save v request_user title w with
        | (inl e, w') => (inl e, w')
        | (inr _, w') => (inr tt, w')
        end
    end.
Proof.
  unfold ReviewViewSet_perform_create, bind, ret.
  destruct (get_by_id_or_404 _ _ (titles w)) as [e|t]; [reflexivity|].
  destruct (ReviewSerializer_save v request_user t w) as [[e|r] w'];
    reflexivity.
Qed.

(** X15. The reviews of a title: the view never writes; a title_id beyond
    the range of the database raises OverflowError; within it, when no title
    has that key (or the path has none) the view raises Http404; otherwise,
    over unique title keys, it returns exactly the reviews of the store that
    belong to that title. *)
Theorem review_queryset (kwargs : Kwargs) (w : World) :
  let run := ReviewViewSet_get_queryset kwargs w in
  snd run = w
  /\ (forall i, kwargs_get kwargs (py "title_id") = Some i ->
                in_key_range i = false -> fst run = inl OverflowError)
  /\ ((forall i, kwargs_get kwargs (py "title_id") = Some i ->
                 in_key_range i = true) ->
      (forall t, In t (titles w) ->
                 kwargs_get kwargs (py "title_id") <> Some (Title.pk t)) ->
      fst run = inl Http404)
  /\ forall t,
      NoDup (List.map Title.pk (titles w)) ->
      In t (titles w) ->
      kwargs_get kwargs (py "title_id") = Some (Title.pk t) ->
      in_key_range (Title.pk t) = true ->
      exists rs,
        fst run = inr rs
        /\ forall r, In r rs
                     <-> In r (reviews w) /\ Review.title_id r = Title.pk t.
Proof.
  intros run. subst run. rewrite ReviewViewSet_get_queryset_step.
  split; [destruct (get_by_id_or_404 _ _ (titles w)); reflexivity|].
  split.
  { intros i Hk Hrange.
    rewrite (by_id_overflow Title.pk _ _ i Hk Hrange). reflexivity. }
  split.
  - intros Hrange Hnone.
    rewrite (by_id_missing Title.pk _ _ Hrange Hnone). reflexivity.
  - intros t Hnd Hin Hk Hrange.
    rewrite (by_id_found Title.pk _ _ t Hnd Hin Hk Hrange).
    eexists. split; [reflexivity|].
    intros r. rewrite filter_In, Z.eqb_eq. reflexivity.
Qed.

Lemma no_review_yet (request_user : User.t) (t : Title.t) (rs : list Review.t) :
  (forall r, In r rs ->
             ~ (Review.author_id r = User.pk request_user
                /\ Review.title_id r = Title.pk t)) ->
  existsb (fun r => (Review.author_id r =? User.pk request_user)
                    && (Review.title_id r =? Title.pk t)) rs = false.
Proof.
  intros H. destruct (existsb _ rs) eqn:E; [|reflexivity].
  apply existsb_exists in E. destruct E as (r & Hr & Hb).
  apply andb_true_iff in Hb. rewrite !Z.eqb_eq in Hb.
  destruct (H r Hr Hb).
Qed.

(** The store after a review by [request_user] of [t] has been created. *)
Lemma ReviewViewSet_perform_create_ok (kwargs : Kwargs) (request_user : User.t)
  (v : ReviewFields) (w : World) (t : Title.t) :
  NoDup (List.map Title.pk (titles w)) ->
  In t (titles w) ->
  kwargs_get kwargs (py "title_id") = Some (Title.pk t) ->
  in_key_range (Title.pk t) = true ->
  (forall r, In r (reviews w) ->
             ~ (Review.author_id r = User.pk request_user
                /\ Review.title_id r = Title.pk t)) ->
  ReviewViewSet_perform_create kwargs request_user v w
  = (inr tt,
     set_reviews
       (reviews w ++ [Review.mk (next_pk (List.map Review.pk (reviews w)))
                                (Title.pk t) (User.pk request_user)
                                (v_text v) (v_score v)]) w).
Proof.
  intros Hnd Hin Hk Hrange Hfirst.
  rewrite ReviewViewSet_perform_create_step,
    (by_id_found Title.pk _ _ t Hnd Hin Hk Hrange).
  unfold ReviewSerializer_save.
  rewrite (no_review_yet request_user t _ Hfirst). reflexivity.
Qed.

(** X16. Creating a review: a title_id beyond the range of the database
    raises OverflowError and, within it, a title that is not in the store
    raises Http404, nothing being written in either case; for a title the
    caller has not reviewed yet the view adds one review, under a fresh key,
    of that title, by the caller, with the validated text and score; the
    reviews listed for the title are then the ones listed before and the new
    one, and the reviews listed for any other title are as before. *)
Theorem review_create_then_list (kwargs : Kwargs) (request_user : User.t)
  (v : ReviewFields) (w : World) :
  (forall i, kwargs_get kwargs (py "title_id") = Some i ->
             in_key_range i = false ->
             ReviewViewSet_perform_create kwargs request_user v w
             = (inl OverflowError, w))
  /\ ((forall i, kwargs_get kwargs (py "title_id") = Some i ->
                 in_key_range i = true) ->
      (forall t, In t (titles w) ->
                 kwargs_get kwargs (py "title_id") <> Some (Title.pk t)) ->
      ReviewViewSet_perform_create kwargs request_user v w = (inl Http404, w))
  /\ forall t,
      NoDup (List.map Title.pk (titles w)) ->
      In t (titles w) ->
      kwargs_get kwargs (py "title_id") = Some (Title.pk t) ->
      in_key_range (Title.pk t) = true ->
      (forall r, In r (reviews w) ->
                 ~ (Review.author_id r = User.pk request_user
                    /\ Review.title_id r = Title.pk t)) ->
      exists r old new w',
        ReviewViewSet_perform_create kwargs request_user v w = (inr tt, w')
        /\ Permutation (reviews w') (r :: reviews w)
        /\ (forall x, In x (reviews w) -> Review.pk x < Review.pk r)
        /\ Review.title_id r = Title.pk t
        /\ Review.author_id r = User.pk request_user
        /\ Review.text r = v_text v /\ Review.score r = v_score v
        /\ ReviewViewSet_get_queryset kwargs w = (inr old, w)
        /\ ReviewViewSet_get_queryset kwargs w' = (inr new, w')
        /\ Permutation new (r :: old)
        /\ forall kwargs' t',
            In t' (titles w) ->
            kwargs_get kwargs' (py "title_id") = Some (Title.pk t') ->
            in_key_range (Title.pk t') = true ->
            Title.pk t' <> Title.pk t ->
            fst (ReviewViewSet_get_queryset kwargs' w')
            = fst (ReviewViewSet_get_queryset kwargs' w).
Proof.
  split; [|split].
  - intros i Hk Hrange. rewrite ReviewViewSet_perform_create_step,
      (by_id_overflow Title.pk _ _ i Hk Hrange). reflexivity.
  - intros Hrange Hnone. rewrite ReviewViewSet_perform_create_step,
      (by_id_missing Title.pk _ _ Hrange Hnone). reflexivity.
  - intros t Hnd Hin Hk Hrange Hfirst.
    rewrite (ReviewViewSet_perform_create_ok kwargs request_user v w t
               Hnd Hin Hk Hrange Hfirst).
    set (r := Review.mk _ _ _ _ _).
    exists r, (filter (fun x => Review.title_id x =? Title.pk t) (reviews w)).
    eexists _, _. split; [reflexivity|].
    cbn [reviews set_reviews].
    split; [symmetry; apply Permutation_cons_append|]. split.
    { intros x Hx. cbn [Review.pk r]. apply next_pk_above.
      apply in_map; exact Hx. }
    do 4 (split; [reflexivity|]).
    rewrite !ReviewViewSet_get_queryset_step. cbn [titles reviews set_reviews].
    rewrite (by_id_found Title.pk _ _ t Hnd Hin Hk Hrange).
    split; [reflexivity|]. split; [reflexivity|]. split.
    { rewrite filter_app. cbn [filter Review.title_id r].
      rewrite Z.eqb_refl. symmetry; apply Permutation_cons_append. }
    intros kwargs' t' Hin' Hk' Hrange' Hneq.
    rewrite !ReviewViewSet_get_queryset_step. cbn [titles reviews set_reviews].
    rewrite (by_id_found Title.pk _ _ t' Hnd Hin' Hk' Hrange'). cbn [fst].
    rewrite filter_app. cbn [filter Review.title_id r].
    apply Z.eqb_neq in Hneq. rewrite Z.eqb_sym, Hneq, app_nil_r. reflexivity.
Qed.

(** X17. A new review gives its title a rating and touches no other: after
    the review is created, the titles endpoint lists the title with a rating
    that is not null, taken over its former scores and the new score, and
    lists every other title exactly as before. *)
Theorem review_create_rates_title (kwargs : Kwargs) (request_user : User.t)
  (v : ReviewFields) (w : World) (t : Title.t) :
  NoDup (List.map Title.pk (titles w)) ->
  In t (titles w) ->
  kwargs_get kwargs (py "title_id") = Some (Title.pk t) ->
  in_key_range (Title.pk t) = true ->
  (forall r, In r (reviews w) ->
             ~ (Review.author_id r = User.pk request_user
                /\ Review.title_id r = Title.pk t)) ->
  exists w',
    ReviewViewSet_perform_create kwargs request_user v w = (inr tt, w')
    /\ Permutation (scores_of w' t) (v_score v :: scores_of w t)
    /\ Forall (fun d =>
                 if Title.pk (title d) =? Title.pk t
                 then rating d <> None
                 else In d (TitleViewSet_list w))
              (TitleViewSet_list w').
Proof.
  intros Hnd Hin Hk Hrange Hfirst.
  rewrite (ReviewViewSet_perform_create_ok kwargs request_user v w t
             Hnd Hin Hk Hrange Hfirst).
  set (r := Review.mk _ _ _ _ _). set (w' := set_reviews _ w).
  exists w'. split; [reflexivity|].
  assert (forall x, filter (fun y => Review.title_id y =? Title.pk x) (reviews w')
                    = filter (fun y => Review.title_id y =? Title.pk x)
                             (reviews w)
                      ++ (if Title.pk x =? Title.pk t then [r] else [])) as Hf.
  { intros x. subst w'. cbn [reviews set_reviews]. rewrite filter_app.
    cbn [filter Review.title_id r]. rewrite (Z.eqb_sym (Title.pk t)).
    destruct (Title.pk x =? Title.pk t); reflexivity. }
  assert (forall x, Title.pk x = Title.pk t ->
                    scores_of w' x = scores_of w x ++ [v_score v]) as Hs.
  { intros x E. unfold scores_of. rewrite Hf, E, Z.eqb_refl, map_app.
    reflexivity. }
  split.
  { rewrite (Hs t eq_refl). symmetry; apply Permutation_cons_append. }
  apply Forall_forall. intros d Hd.
  apply TitleViewSet_list_In in Hd. destruct Hd as (t0 & Ht0 & ->).
  cbn [title rating]. change (titles w') with (titles w) in Ht0.
  destruct (Title.pk t0 =? Title.pk t) eqn:E.
  - apply Z.eqb_eq in E.
    pose proof (Avg_reviews__score w' t0) as HA.
    rewrite (Hs t0 E) in HA.
    destruct (scores_of w t0 ++ [v_score v]) as [|s l] eqn:Es.
    + destruct (scores_of w t0); discriminate.
    + destruct HA as (q & -> & _). discriminate.
  - apply TitleViewSet_list_In. exists t0. split; [exact Ht0|].
    unfold reviews__score. rewrite Hf, E, app_nil_r. reflexivity.
Qed.

(** X18. Comments hang on the review alone: a review_id beyond the range of
    the database raises OverflowError and, within it, one that no review has
    raises Http404, on listing and on creating, and no comment is added;
    otherwise, over unique review keys, creating adds one comment of that
    review by the caller with the given text, the comments listed are then
    the ones listed before and the new one, and what is listed does not
    depend on any other parameter of the path, the title included. *)
Theorem comment_create_then_list (kwargs : Kwargs) (request_user : User.t)
  (text : str) (w : World) (comments : list Comments.t) :
  (forall i, kwargs_get kwargs (py "review_id") = Some i ->
             in_key_range i = false ->
             CommentsViewSet_get_queryset kwargs w comments = inl OverflowError
             /\ CommentsViewSet_perform_create kwargs request_user text w
                                               comments
                = (inl OverflowError, comments))
  /\ ((forall i, kwargs_get kwargs (py "review_id") = Some i ->
                 in_key_range i = true) ->
      (forall r, In r (reviews w) ->
                 kwargs_get kwargs (py "review_id") <> Some (Review.pk r)) ->
      CommentsViewSet_get_queryset kwargs w comments = inl Http404
      /\ CommentsViewSet_perform_create kwargs request_user text w comments
         = (inl Http404, comments))
  /\ (forall kwargs',
         kwargs_get kwargs' (py "review_id") = kwargs_get kwargs (py "review_id")
         -> CommentsViewSet_get_queryset kwargs' w comments
            = CommentsViewSet_get_queryset kwargs w comments)
  /\ forall review,
      NoDup (List.map Review.pk (reviews w)) ->
      In review (reviews w) ->
      kwargs_get kwargs (py "review_id") = Some (Review.pk review) ->
      in_key_range (Review.pk review) = true ->
      exists c old new comments',
        CommentsViewSet_get_queryset kwargs w comments = inr old
        /\ (forall x, In x old <-> In x comments
                                   /\ Comments.review_id x = Review.pk review)
        /\ CommentsViewSet_perform_create kwargs request_user text w comments
           = (inr tt, comments')
        /\ Permutation comments' (c :: comments)
        /\ Comments.review_id c = Review.pk review
        /\ Comments.author_id c = User.pk request_user
        /\ Comments.text c = text
        /\ (forall x, In x comments -> Comments.pk x < Comments.pk c)
        /\ CommentsViewSet_get_queryset kwargs w comments' = inr new
        /\ Permutation new (c :: old).
Proof.
  unfold CommentsViewSet_get_queryset, CommentsViewSet_perform_create.
  split; [|split; [|split]].
  - intros i Hk Hrange.
    rewrite (by_id_overflow Review.pk _ _ i Hk Hrange). auto.
  - intros Hrange Hnone.
    rewrite (by_id_missing Review.pk _ _ Hrange Hnone). auto.
  - intros kwargs' ->. reflexivity.
  - intros review Hnd Hin Hk Hrange.
    rewrite (by_id_found Review.pk _ _ review Hnd Hin Hk Hrange). cbv zeta.
    set (c := Comments.mk _ _ _ _).
    exists c, (filter (fun x => Comments.review_id x =? Review.pk review)
                      comments).
    eexists _, _.
    split; [reflexivity|]. split.
    { intros x. rewrite filter_In, Z.eqb_eq. reflexivity. }
    split; [reflexivity|].
    split; [symmetry; apply Permutation_cons_append|].
    do 3 (split; [reflexivity|]). split.
    { intros x Hx. cbn [Comments.pk c]. apply next_pk_above.
      apply in_map; exact Hx. }
    split; [reflexivity|].
    rewrite filter_app. cbn [filter Comments.review_id c].
    rewrite Z.eqb_refl. symmetry; apply Permutation_cons_append.
Qed.

(* ------------------------------------------------------------------------- *)
(** ** The views on the sample store *)

Import Sample.

Example validate_username_runs :
  validate_username ascii_only (py "alice") = inr tt
  /\ validate_username ascii_only (py "a.b@c+d-e_9") = inr tt
  /\ (exists m p, validate_username ascii_only (py "me")
                  = inl (ValidationError m p))
  /\ (exists m p, validate_username ascii_only [] = inl (ValidationError m p))
  /\ (exists m p, validate_username ascii_only (py "a b")
                  = inl (ValidationError m p))
  /\ (exists m p, validate_username ascii_only (py "alice" ++ [10%N])
                  = inl (ValidationError m p)).
Proof. repeat split; try reflexivity; eexists; eexists; reflexivity. Qed.

Example percent_runs :
  percent_raises (py "100%% of <%(value)s>") [(py "value", py "x")] = None
  /\ percent_raises (py "<a%b>") [(py "value", py "a%b")] = Some ValueError
  /\ percent_raises (py "<a%>") [(py "value", py "a%")] = Some ValueError
  /\ percent_raises (py "<%(name)s>") [(py "value", py "x")] = Some KeyError
  /\ percent_raises (py "<%d>") [(py "value", py "x")] = Some TypeError
  /\ percent_raises (py "<%s%s>") [(py "value", py "x")] = Some TypeError
  /\ percent_raises (py "<%s>") [(py "value", py "x")] = None.
Proof. repeat split. Qed.

Example signup_runs :
  let '(res, w1) := APISignup_post ascii_only code_of (mail_up 100) signup_bob
                                   store in
  res = inr {| data := [(py "username", py "bob");
                        (py "email", py "bob@example.com")];
               status := 200 |}
  /\ List.map User.username (users w1) = [py "alice"; py "bob"]
  /\ List.map body (outbox w1)
     = [py "Привет, bob." ++ [10%N] ++ py "Код подтверждения: bob-d"].
Proof. vm_compute. repeat split. Qed.

Example token_runs :
  fst (APIGetToken_post code_checks jwt_of (mail_up 160) token_alice store)
  = inr (token_response (py "jwt.alice"))
  /\ fst (APIGetToken_post code_checks jwt_of (mail_up 4000) token_alice store)
     = inr invalid_code_response
  /\ fst (APIGetToken_post code_checks jwt_of (mail_up 160) token_nobody store)
     = inr not_found_response.
Proof. vm_compute. repeat split. Qed.

Example patch_me_runs :
  let '(res, w1) := get_current_user_info ascii_only PATCH alice patch_role
                                          store in
  res = inr {| data := [(py "username", py "alice");
                        (py "email", py "alice@example.com");
                        (py "bio", py "critic"); (py "role", py "user")];
               status := 200 |}
  /\ users w1
     = [User.mk 1 (py "alice") (py "alice@example.com") RegularUser
                (py "critic")].
Proof. vm_compute. repeat split. Qed.

Example title_list_runs :
  List.map (fun d => (Title.name (title d), rating d)) (TitleViewSet_list store)
  = [(py "Solaris", Some (17 # 2)%Q); (py "Stalker", None)].
Proof. vm_compute. reflexivity. Qed.

Example title_update_runs :
  let s := {| instance := Some solaris;
              validated_data := {| v_name := None; v_year := None;
                                   v_description := None |} |} in
  List.map (fun t => (Title.category t, Title.genre t))
           (titles (snd (perform_update (Form patch_title) s store)))
  = [(Some 1, [1]); (None, [])]
  /\ perform_update (Form [(py "genre", [py "drama"])]) s store
     = (inl Http404, store).
Proof. vm_compute. repeat split. Qed.

(* ------------------------------------------------------------------------- *)
(** ** The statements above, at the sample store *)


Lemma patch_me_keeps_role_witness :
  find_user store (User.pk alice) = Some alice
  /\ exists r u',
      fst (get_current_user_info ascii_only PATCH alice patch_role store)
      = inr r
      /\ find_user (snd (get_current_user_info ascii_only PATCH alice patch_role
                                                store)) (User.pk alice)
         = Some u'
      /\ User.role u' = User.role alice
      /\ User.bio u' = py "critic"
      /\ r = {| data := UserSerializer_data u'; status := HTTP_200_OK |}.
Proof.
  split; [reflexivity|].
  destruct (patch_me_keeps_role ascii_only alice patch_role store eq_refl)
    as ((u' & Hfind & Hrole & Hfields & _) & Hanswers).
  destruct Hanswers as (r & Hr).
  - intros value H. vm_compute in H. discriminate.
  - intros value H. vm_compute in H. inversion H. vm_compute. discriminate.
  - intros x [<- | []] Hk. destruct Hk; reflexivity.
  - destruct (Hfields r Hr) as (_ & _ & Hbio & Hdata & _).
    exists r, u'. repeat split; assumption.
Defined.

Lemma signup_idempotent_witness :
  let run1 := APISignup_post ascii_only code_of (mail_up 100) signup_bob store in
  let run2 := APISignup_post ascii_only code_of (mail_up 130) signup_bob
                             (snd run1) in
  exists user,
    fst run1 = inr {| data := [(py "username", py "bob");
                               (py "email", py "bob@example.com")];
                      status := HTTP_200_OK |}
    /\ fst run2 = fst run1
    /\ users (snd run2) = users (snd run1)
    /\ outbox (snd run2)
       = (outbox store
          ++ [{| subject := py "Код подтверждения";
                 body := py "Привет, " ++ py "bob" ++ py "." ++ [10%N]
                         ++ py "Код подтверждения: " ++ code_of 100 user;
                 to := [py "bob@example.com"] |}])
         ++ [{| subject := py "Код подтверждения";
                body := py "Привет, " ++ py "bob" ++ py "." ++ [10%N]
                        ++ py "Код подтверждения: " ++ code_of 130 user;
                to := [py "bob@example.com"] |}].
Proof.
  intros run1 run2.
  assert (~ username_rejected ascii_only (py "bob")) as Hok.
  { apply validate_username_passes. reflexivity. }
  assert (forall x, In x (users store) ->
            (User.username x = py "bob"
             <-> User.email x = py "bob@example.com")) as Hwhole.
  { intros x [<- | []]. split; intros E; vm_compute in E; discriminate. }
  assert (NoDup (List.map User.username (users store))) as Hnd.
  { repeat constructor. intros []. }
  destruct (signup_idempotent ascii_only code_of (mail_up 100) (mail_up 130)
              signup_bob store (py "bob") (py "bob@example.com")
              eq_refl eq_refl Hok Hnd Hwhole
              (fun _ => eq_refl) (fun _ => eq_refl))
    as (user & H1 & H2 & _ & _ & _ & _ & Hus & Hout1 & Hout2).
  exists user. fold run1 in H1, Hus, Hout1, Hout2. fold run2 in H2, Hus, Hout2.
  split; [exact H1|]. split; [rewrite H1; exact H2|]. split; [exact Hus|].
  rewrite Hout2, Hout1. reflexivity.
Defined.

Lemma signup_idempotent_counterexample :
  (get SampleMore.signup_alice_elsewhere (py "username") = Some (py "alice")
   /\ get SampleMore.signup_alice_elsewhere (py "email")
      = Some (py "elsewhere@example.com")
   /\ validate_username ascii_only (py "alice") = inr tt
   /\ APISignup_post ascii_only code_of (mail_up 100) SampleMore.signup_alice_elsewhere
                     store = (inl IntegrityError, store)
   /\ ~ signup_twice_as_claimed ascii_only code_of (mail_up 100) (mail_up 130)
                                SampleMore.signup_alice_elsewhere store)
  /\ List.map body
       (outbox (snd (APISignup_post ascii_only code_of (mail_up 100) signup_bob
                       (snd (APISignup_post ascii_only code_of (mail_up 100)
                                            signup_bob store)))))
     = [py "Привет, bob." ++ [10%N] ++ py "Код подтверждения: bob-d";
        py "Привет, bob." ++ [10%N] ++ py "Код подтверждения: bob-d"].
Proof.
  split; [|vm_compute; reflexivity].
  do 4 (split; [vm_compute; reflexivity|]).
  intros (_ & H & _). vm_compute in H. discriminate.
Qed.

Lemma exchange_does_not_consume_code_witness :
  APIGetToken_post code_checks jwt_of (mail_up 160) token_alice store
  = (inr (token_response (py "jwt.alice")), store)
  /\ APIGetToken_post code_checks jwt_of (mail_up 200) token_alice store
     = (inr (token_response (py "jwt.alice")), store).
Proof.
  assert (APIGetToken_post code_checks jwt_of (mail_up 160) token_alice store
          = (inr (token_response (py "jwt.alice")), store)) as H1
      by (vm_compute; reflexivity).
  split; [exact H1|].
  destruct (exchange_does_not_consume_code code_checks jwt_of (mail_up 160)
              token_alice store store _ H1 eq_refl)
    as (_ & _ & u & code & Hc & Hin & Hu & _ & _ & Hagain).
  destruct Hin as [<- | []].
  assert (code = code_of 100 alice) as ->
      by (vm_compute in Hc; inversion Hc; reflexivity).
  apply (Hagain (mail_up 200)). vm_compute; reflexivity.
Defined.

Lemma signup_response_independent_of_code_witness :
  exists r w1 w2,
    APISignup_post ascii_only code_of (mail_up 100) signup_bob store
    = (inr r, w1)
    /\ APISignup_post ascii_only other_code_of (mail_up 100) signup_bob store
       = (inr r, w2)
    /\ outbox w1 <> outbox w2.
Proof.
  pose (run1 := APISignup_post ascii_only code_of (mail_up 100) signup_bob
                               store).
  pose (run2 := APISignup_post ascii_only other_code_of (mail_up 100)
                               signup_bob store).
  pose (r := {| data := [(py "username", py "bob");
                         (py "email", py "bob@example.com")];
                status := HTTP_200_OK |}).
  assert (run1 = (inr r, snd run1)) as H1 by (vm_compute; reflexivity).
  assert (exists r2, run2 = (inr r2, snd run2)) as (r2 & H2)
      by (eexists; vm_compute; reflexivity).
  destruct (signup_response_independent_of_code ascii_only code_of
              other_code_of (mail_up 100) (mail_up 100) signup_bob store store
              _ _ _ _ H1 H2) as (E & _).
  exists r, (snd run1), (snd run2). split; [exact H1|].
  split; [rewrite E; exact H2|].
  vm_compute; discriminate.
Defined.

Lemma exchange_checks_user_first_witness :
  get token_nobody (py "username") = Some (py "nobody")
  /\ get token_nobody (py "confirmation_code") = Some (code_of 100 alice)
  /\ APIGetToken_post code_checks jwt_of (mail_up 160) token_nobody store
     = (inr not_found_response, store).
Proof.
  split; [reflexivity|]. split; [reflexivity|].
  apply (proj1 (exchange_checks_user_first code_checks jwt_of (mail_up 160)
                  token_nobody store (py "nobody") (code_of 100 alice)
                  eq_refl eq_refl)).
  intros u [<- | []]. vm_compute; discriminate.
Defined.

Lemma title_update_reuses_create_witness :
  let s := {| instance := Some solaris;
              validated_data := {| v_name := None; v_year := None;
                                   v_description := None |} |} in
  find_title store (Title.pk solaris) = Some solaris
  /\ NoDup (List.map Category.slug (categories store))
  /\ In films (categories store)
  /\ get patch_title (py "category") = Some (Category.slug films)
  /\ exists t' w',
      perform_update (Form patch_title) s store = (inr tt, w')
      /\ find_title w' (Title.pk solaris) = Some t'
      /\ Title.category t' = Some (Category.pk films).
Proof.
  intros s.
  assert (NoDup (List.map Category.slug (categories store))) as Hnd.
  { repeat constructor. intros []. }
  assert (In films (categories store)) as Hin by (left; reflexivity).
  split; [reflexivity|]. split; [exact Hnd|]. split; [exact Hin|].
  split; [reflexivity|].
  destruct (proj2 (proj2 (proj2
              (title_update_reuses_create (Form patch_title) patch_title
                 solaris
                 {| v_name := None; v_year := None; v_description := None |}
                 store)))
              films eq_refl Hnd Hin eq_refl)
    as (_ & t' & w' & Hrun & Hfind & Hcat & _).
  exists t', w'. repeat split; assumption.
Defined.

Lemma title_update_reuses_create_counterexample :
  let v := {| v_name := None; v_year := None; v_description := None |} in
  let s := {| instance := Some solaris; validated_data := v |} in
  In films (categories store)
  /\ data_get (Json SampleMore.json_title) (py "category")
     = Some (Category.slug films)
  /\ perform_update (Json SampleMore.json_title) s store
     = (inl AttributeError, store)
  /\ ~ title_update_as_claimed (Json SampleMore.json_title) solaris v store.
Proof.
  intros v s.
  assert (In films (categories store)) as Hin by (left; reflexivity).
  split; [exact Hin|]. split; [reflexivity|]. split; [reflexivity|].
  intros H. destruct (H films Hin eq_refl) as (t' & w' & Hrun & _).
  vm_compute in Hrun. discriminate.
Qed.

Lemma title_rating_is_rounded_mean_witness :
  (forall x, In x (titles store) -> Z.abs (total (scores_of store x)) <= 2 ^ 53)
  /\ In solaris (titles store)
  /\ forall d, In d (TitleViewSet_list store) -> title d = solaris ->
       exists q, rating_float d = Some q /\ is_binary64 q
                 /\ (q == Qmake 17 2)%Q.
Proof.
  assert (forall x, In x (titles store) ->
                    Z.abs (total (scores_of store x)) <= 2 ^ 53) as Hb.
  { intros x [<- | [<- | []]]; vm_compute; discriminate. }
  assert (In solaris (titles store)) as Hin by (left; reflexivity).
  split; [exact Hb|]. split; [exact Hin|].
  intros d Hd Ht.
  pose proof (proj2 (title_rating_is_rounded_mean store solaris Hb Hin) d Hd Ht)
    as H.
  change (scores_of store solaris) with [7; 10] in H.
  destruct H as (q & Hq & Hf & _ & Hexact).
  exists q. split; [exact Hq|]. split; [exact Hf|].
  rewrite (Hexact 17 1); [reflexivity | discriminate | reflexivity
                          | reflexivity].
Defined.

Lemma title_rating_is_rounded_mean_counterexample :
  scores_of SampleMore.thirds solaris = [1; 2; 2]
  /\ Qeq (mean [1; 2; 2]) (Qmake 5 3)
  /\ List.map rating_float (TitleViewSet_list SampleMore.thirds)
     = [Some (Qmake 7505999378950827 4503599627370496)]
  /\ ~ ratings_as_claimed SampleMore.thirds.
Proof.
  split; [reflexivity|]. split; [reflexivity|].
  assert (List.map rating_float (TitleViewSet_list SampleMore.thirds)
          = [Some (Qmake 7505999378950827 4503599627370496)]) as E
      by (vm_compute; reflexivity).
  split; [exact E|].
  intros H.
  assert (In {| title := solaris; rating := Some (Qmake 5 3) |}
             (TitleViewSet_list SampleMore.thirds)) as Hd
      by (left; reflexivity).
  specialize (H _ Hd). cbn [title] in H.
  change (scores_of SampleMore.thirds solaris) with [1; 2; 2] in H.
  destruct H as (q & Hq & Hmean).
  assert (Qmake 7505999378950827 4503599627370496 = q) as <-
      by (vm_compute in Hq; inversion Hq; reflexivity).
  vm_compute in Hmean. discriminate Hmean.
Qed.

Lemma signup_mail_failure_keeps_user_witness :
  exists w',
    APISignup_post ascii_only code_of (mail_down 100) signup_bob store
    = (inl SMTPException, w')
    /\ List.map User.username (users w') = [py "alice"; py "bob"]
    /\ outbox w' = [].
Proof.
  assert (~ username_rejected ascii_only (py "bob")) as Hok.
  { apply validate_username_passes. reflexivity. }
  assert (forall x, In x (users store) ->
            User.username x <> py "bob"
            /\ User.email x <> py "bob@example.com") as Hnew.
  { intros x [<- | []]. split; vm_compute; discriminate. }
  destruct (signup_mail_failure_keeps_user ascii_only code_of (mail_down 100)
              signup_bob store (py "bob") (py "bob@example.com")
              eq_refl eq_refl Hok Hnew eq_refl)
    as (w' & Hrun & Hus & _ & Hout).
  exists w'. split; [exact Hrun|]. split.
  - rewrite Hus. reflexivity.
  - rewrite Hout. reflexivity.
Defined.

(* ------------------------------------------------------------------------- *)
(** ** The further statements, at the sample store *)

Import SampleMore.

Lemma store_users_unique : users_unique store.
Proof.
  repeat split; repeat constructor; intros [].
Defined.

Lemma store_titles_unique : NoDup (List.map Title.pk (titles store)).
Proof.
  repeat constructor; cbn; intuition discriminate.
Defined.

Lemma store_categories_unique :
  NoDup (List.map Category.slug (categories store)).
Proof. repeat constructor. intros []. Defined.

Lemma signup_conflict_raises_witness :
  APISignup_post ascii_only code_of (mail_up 100) signup_alice_elsewhere store
  = (inl IntegrityError, store).
Proof.
  apply (signup_conflict_raises ascii_only code_of (mail_up 100)
           signup_alice_elsewhere store (py "alice")
           (py "elsewhere@example.com") eq_refl eq_refl).
  - apply validate_username_passes. reflexivity.
  - intros x [<- | []] (_ & E). vm_compute in E. discriminate.
  - exists alice. split; [left; reflexivity | left; reflexivity].
Defined.



Lemma reachable_after_signup :
  reachable ascii_only code_of code_checks jwt_of
    (serve ascii_only code_of code_checks jwt_of
           (Me PATCH 1 patch_role)
           (serve ascii_only code_of code_checks jwt_of
                  (PostSignup (mail_up 100) signup_bob) no_users)).
Proof.
  apply reachable_serve. apply reachable_serve. apply reachable_start.
  reflexivity.
Defined.

Lemma reachable_roles_regular_witness :
  Forall (fun u => User.role u = RegularUser)
         (users (serve ascii_only code_of code_checks jwt_of
                       (Me PATCH 1 patch_role)
                       (serve ascii_only code_of code_checks jwt_of
                              (PostSignup (mail_up 100) signup_bob)
                              no_users))).
Proof.
  exact (reachable_roles_regular ascii_only code_of code_checks jwt_of _
           reachable_after_signup).
Defined.

Lemma reachable_users_unique_witness :
  users_unique (serve ascii_only code_of code_checks jwt_of
                      (Me PATCH 1 patch_role)
                      (serve ascii_only code_of code_checks jwt_of
                             (PostSignup (mail_up 100) signup_bob) no_users)).
Proof.
  exact (reachable_users_unique ascii_only code_of code_checks jwt_of _
           reachable_after_signup).
Defined.

Lemma get_me_own_record_witness :
  fst (get_current_user_info ascii_only GET alice patch_role store)
  = inr {| data := UserSerializer_data alice; status := HTTP_200_OK |}
  /\ fst (get_current_user_info ascii_only GET bob [] store) = inl Http404.
Proof.
  split.
  - apply (proj1 (proj2 (proj2
             (get_me_own_record ascii_only alice patch_role store)))).
    + exact (proj1 (proj2 store_users_unique)).
    + left; reflexivity.
  - apply (proj2 (proj2 (proj2 (get_me_own_record ascii_only bob [] store)))).
    intros u [<- | []]. vm_compute. discriminate.
Defined.

Lemma patch_then_get_witness :
  exists r w' u',
    get_current_user_info ascii_only PATCH alice patch_role store = (inr r, w')
    /\ find_user w' (User.pk alice) = Some u'
    /\ get_current_user_info ascii_only GET u' [] w' = (inr r, w').
Proof.
  pose (run := get_current_user_info ascii_only PATCH alice patch_role store).
  assert (exists r, run = (inr r, snd run)) as (r & H1)
      by (eexists; vm_compute; reflexivity).
  destruct (patch_then_get ascii_only alice patch_role [] store (snd run) r
              store_users_unique eq_refl H1) as (u' & Hfind & Hget).
  exists r, (snd run), u'. repeat split; assumption.
Defined.

Lemma title_create_appends_witness :
  exists t',
    perform_create (Form patch_title)
                   {| instance := None; validated_data := mirror |} store
    = (inr tt, set_titles (titles store ++ [t']) store)
    /\ Title.name t' = py "Mirror"
    /\ Title.genre t' = [1].
Proof.
  destruct (proj2 (title_create_appends patch_title mirror store)
              (py "Mirror") 1975 films eq_refl eq_refl
              store_categories_unique (or_introl eq_refl) eq_refl)
    as (t' & Hrun & _ & Hname & _ & _ & Hgenre & _).
  exists t'. split; [exact Hrun|]. split; [exact Hname|].
  rewrite Hgenre. reflexivity.
Defined.

Lemma title_update_genres_clean_witness :
  exists t' w',
    perform_update (Form twice_drama)
                   {| instance := Some solaris; validated_data := rename |}
                   store
    = (inr tt, w')
    /\ find_title w' (Title.pk solaris) = Some t'
    /\ NoDup (Title.genre t').
Proof.
  assert (NoDup (List.map Genre.pk (genres store))) as Hg.
  { repeat constructor; cbn; intuition discriminate. }
  destruct (title_update_genres_clean twice_drama solaris rename store films
              eq_refl store_categories_unique (or_introl eq_refl) eq_refl Hg)
    as (t' & w' & Hrun & Hfind & Hnd & _).
  exists t', w'. repeat split; assumption.
Defined.

Lemma title_update_frame_witness :
  exists t' w',
    perform_update (Form twice_drama)
                   {| instance := Some solaris; validated_data := rename |}
                   store
    = (inr tt, w')
    /\ find_title w' (Title.pk stalker) = Some stalker
    /\ find_title w' (Title.pk solaris) = Some t'
    /\ Title.name t' = py "Solyaris"
    /\ Title.year t' = 1972.
Proof.
  destruct (title_update_frame twice_drama solaris rename store films
              eq_refl store_categories_unique (or_introl eq_refl) eq_refl)
    as (t' & w' & Hrun & _ & _ & Hother & Hfind & Hname & Hyear & _).
  exists t', w'. split; [exact Hrun|]. split.
  { rewrite Hother; [reflexivity | discriminate]. }
  repeat split; assumption.
Defined.

Lemma title_update_keeps_ratings_witness :
  exists w',
    perform_update (Form twice_drama)
                   {| instance := Some solaris; validated_data := rename |}
                   store
    = (inr tt, w')
    /\ Forall (fun d' => exists d0, In d0 (TitleViewSet_list store)
                                    /\ Title.pk (title d0) = Title.pk (title d')
                                    /\ rating d0 = rating d')
              (TitleViewSet_list w').
Proof.
  exact (title_update_keeps_ratings twice_drama solaris rename store films
           store_categories_unique (or_introl eq_refl) eq_refl).
Defined.

Lemma title_write_json_body_witness :
  perform_create (Json json_title)
                 {| instance := None; validated_data := mirror |} store
  = (inl AttributeError, store)
  /\ perform_update (Json [])
                    {| instance := Some solaris; validated_data := rename |}
                    store
     = (inl Http404, store).
Proof.
  split.
  - exact (proj2 (proj2 (proj2 (title_write_json_body json_title _ store)))
             films store_categories_unique (or_introl eq_refl) eq_refl).
  - rewrite (proj1 (proj2 (title_write_json_body [] _ store))).
    apply (proj1 (proj2 (proj2 (title_write_json_body [] _ store)))).
    intros c _. discriminate.
Defined.


Lemma review_queryset_witness :
  (exists rs, fst (ReviewViewSet_get_queryset title_1 store) = inr rs
              /\ forall r, In r rs <-> In r (reviews store)
                                       /\ Review.title_id r = 1)
  /\ fst (ReviewViewSet_get_queryset [] store) = inl Http404.
Proof.
  split.
  - exact (proj2 (proj2 (proj2 (review_queryset title_1 store))) solaris
             store_titles_unique (or_introl eq_refl) eq_refl eq_refl).
  - apply (proj1 (proj2 (proj2 (review_queryset [] store)))).
    + intros i E. discriminate E.
    + intros t _. discriminate.
Defined.

Lemma bob_has_no_review_of (t : Title.t) :
  forall r, In r (reviews store) ->
            ~ (Review.author_id r = User.pk bob
               /\ Review.title_id r = Title.pk t).
Proof.
  intros r [<- | [<- | []]] (E & _); discriminate.
Defined.

Lemma review_create_then_list_witness :
  exists r old new w',
    ReviewViewSet_perform_create title_1 bob fine_review store = (inr tt, w')
    /\ ReviewViewSet_get_queryset title_1 store = (inr old, store)
    /\ ReviewViewSet_get_queryset title_1 w' = (inr new, w')
    /\ Permutation new (r :: old)
    /\ Review.score r = 4.
Proof.
  destruct (proj2 (proj2 (review_create_then_list title_1 bob fine_review
                            store))
              solaris store_titles_unique (or_introl eq_refl) eq_refl eq_refl
              (bob_has_no_review_of solaris))
    as (r & old & new & w' & Hrun & _ & _ & _ & _ & _ & Hscore & Hold & Hnew
        & Hperm & _).
  exists r, old, new, w'. repeat split; assumption.
Defined.

Lemma review_create_rates_title_witness :
  exists w',
    ReviewViewSet_perform_create title_1 bob fine_review store = (inr tt, w')
    /\ Permutation (scores_of w' solaris) (4 :: scores_of store solaris)
    /\ Forall (fun d =>
                 if Title.pk (title d) =? Title.pk solaris
                 then rating d <> None
                 else In d (TitleViewSet_list store))
              (TitleViewSet_list w').
Proof.
  exact (review_create_rates_title title_1 bob fine_review store solaris
           store_titles_unique (or_introl eq_refl) eq_refl eq_refl
           (bob_has_no_review_of solaris)).
Defined.

Lemma comment_create_then_list_witness :
  exists c comments',
    CommentsViewSet_perform_create title_99_review_2 bob (py "agreed") store []
    = (inr tt, comments')
    /\ Permutation comments' [c]
    /\ Comments.text c = py "agreed"
    /\ (exists new,
          CommentsViewSet_get_queryset title_99_review_2 store comments'
          = inr new
          /\ Permutation new [c])
    /\ CommentsViewSet_get_queryset title_1 store comments' = inl Http404.
Proof.
  assert (NoDup (List.map Review.pk (reviews store))) as Hnd.
  { repeat constructor; cbn; intuition discriminate. }
  destruct (proj2 (proj2 (proj2 (comment_create_then_list title_99_review_2
                                   bob (py "agreed") store [])))
              (Review.mk 2 1 5 (py "great") 10) Hnd
              (or_intror (or_introl eq_refl)) eq_refl eq_refl)
    as (c & old & new & comments' & Hold & _ & Hrun & Hperm & _ & _ & Htext
        & _ & Hnew & Hpn).
  assert (old = []) as E by (vm_compute in Hold; inversion Hold; reflexivity).
  rewrite E in Hpn.
  exists c, comments'. split; [exact Hrun|]. split; [exact Hperm|].
  split; [exact Htext|]. split; [exists new; split; assumption|].
  apply (proj1 (proj2 (comment_create_then_list title_1 bob (py "agreed")
                         store comments'))).
  - intros i E'. discriminate E'.
  - intros r _. discriminate.
Defined.

Lemma validate_username_rejects_iff_witness :
  py "a b" <> py "me"
  /\ username_rejected ascii_only (py "a b")
  /\ validate_username ascii_only (py "a b")
     = inl (ValidationError
              (py "Недопустимые символы <" ++ py "a b" ++ py "> в username.")
              [(py "value", py "a b")])
  /\ validate_username ascii_only (py "a.b") = inr tt.
Proof.
  assert (py "a b" <> py "me") as Hme by (vm_compute; discriminate).
  assert (username_rejected ascii_only (py "a b")) as Hrej.
  { right; right. exists 32%N. split; [right; left|]; reflexivity. }
  split; [exact Hme|]. split; [exact Hrej|]. split.
  - exact (proj2 (proj2 (proj2
             (validate_username_rejects_iff ascii_only (py "a b"))))
             Hme Hrej).
  - apply (proj1 (proj2 (validate_username_rejects_iff ascii_only
                           (py "a.b")))).
    intros H.
    apply (proj1 (validate_username_rejects_iff ascii_only (py "a.b"))) in H.
    destruct H as (m & H). discriminate H.
Defined.

Lemma signup_username_error_witness :
  get signup_me (py "username") = Some (py "me")
  /\ ~ In 37%N (py "me")
  /\ exists errors,
      APISignup_post ascii_only code_of (mail_up 100) signup_me store
      = (inl (FieldErrors errors), store)
      /\ In (py "username") (List.map fst errors).
Proof.
  assert (~ In 37%N (py "me")) as Hno by (vm_compute; intuition discriminate).
  split; [reflexivity|]. split; [exact Hno|].
  apply (proj2 (signup_username_error ascii_only code_of (mail_up 100)
                  signup_me store (py "me") eq_refl Hno)).
  left; reflexivity.
Defined.
